(** * clx: the Splunk notable-event parser

    A shallow embedding of [clx/parsers/splunk_notable_parser.py] and of the
    parts of the tabular engine (cudf) it calls, followed by the properties of
    the parser.

    Layout:
    - cell values, series and data frames (columns kept in a finite map,
      rows identified by an index label);
    - the string and frame operations of the engine that the parser calls;
    - the object store: frames are mutable objects, the parser receives a
      reference and assigns into the caller's frame;
    - the parser itself ([parse], [_process_ip_fields]);
    - a row view of frames, and the theorems. *)

From Stdlib Require Import ZArith String Ascii.
From stdpp Require Import gmap strings list fin_maps.

Open Scope string_scope.
Open Scope nat_scope.
Open Scope list_scope.

#[local] Set Warnings "-clear-no-such-hyp".

(* ===================================================================== *)
(** ** Cells, series, frames                                              *)
(* ===================================================================== *)

(** A cell of a column: a value of the column's type, or the null marker. *)
Inductive value : Type :=
  | Null
  | Str (s : string)
  | Int (n : Z)
  | Bool (b : bool).

#[global] Instance value_eq_dec : EqDecision value.
Proof. solve_decision. Defined.

(** A series is a column of cells. Every series this program builds is taken
    from the frame it is compared with or assigned to, so it carries that
    frame's index and the engine combines them by position. *)
Abbreviation Series := (list value).

(** A data frame: the row labels and the named columns. Column order plays no
    part in the parser, so the columns are a finite map. *)
Record DataFrame : Type := mkDataFrame {
  index : list nat;
  columns : gmap string (list value)
}.

Definition nrows (df : DataFrame) : nat := length (index df).

(** Every column has [n] cells. *)
Definition cols_wf (n : nat) (cols : gmap string (list value)) : Prop :=
  map_Forall (fun _ s => length s = n) cols.

(** Every column is as long as the index. *)
Definition wf (df : DataFrame) : Prop := cols_wf (nrows df) (columns df).

#[global] Instance wf_dec df : Decision (wf df).
Proof. unfold wf, cols_wf. apply _. Defined.

Definition is_str (v : value) : bool :=
  match v with Str _ => true | _ => false end.

(** The [.str] accessor is available on a column of strings (nulls allowed). *)
Definition is_str_or_null (v : value) : bool :=
  match v with Null | Str _ => true | _ => false end.

Definition is_bool_or_null (v : value) : bool :=
  match v with Null | Bool _ => true | _ => false end.

(* ===================================================================== *)
(** ** String operations of the engine                                    *)
(* ===================================================================== *)

Definition backslash : ascii := "\"%char.

Definition is_alnum (c : ascii) : bool :=
  let n := nat_of_ascii c in
  ((48 <=? n) && (n <=? 57)) || ((65 <=? n) && (n <=? 90))
  || ((97 <=? n) && (n <=? 122)).

(** Characters with a meaning of their own in a regular expression. *)
Definition is_meta (c : ascii) : bool :=
  bool_decide (c ∈ String.list_ascii_of_string ".^$*+?{}[]|()").

(** The fragment of regular expressions modelled here: a sequence of ordinary
    characters and of escaped punctuation characters. Such a pattern matches
    exactly one string, which [re_literal] returns. A backslash followed by a
    letter or a digit is a character class or a back reference and lies
    outside the fragment, and so does any unescaped metacharacter. *)
Fixpoint re_literal (pat : string) : option string :=
  match pat with
  | EmptyString => Some EmptyString
  | String c rest =>
      if Ascii.eqb c backslash then
        match rest with
        | EmptyString => None
        | String d rest' =>
            if is_alnum d then None else String d <$> re_literal rest'
        end
      else if is_meta c then None
      else String c <$> re_literal rest
  end.

(** Replace the occurrences of the non-empty string [lit] in [s] by [repl],
    scanning from the left; [skip] counts the characters of the current
    occurrence that are still to be consumed. *)
Fixpoint replace_from (lit repl : string) (skip : nat) (s : string) : string :=
  match s with
  | EmptyString => EmptyString
  | String c s' =>
      match skip with
      | S k => replace_from lit repl k s'
      | O =>
          if String.prefix lit s
          then repl +:+ replace_from lit repl (String.length lit - 1) s'
          else String c (replace_from lit repl 0 s')
      end
  end.

(** An empty pattern matches before every character and at the end. *)
Fixpoint replace_empty (repl : string) (s : string) : string :=
  match s with
  | EmptyString => repl
  | String c s' => repl +:+ String c (replace_empty repl s')
  end.

Definition replace_all (lit repl s : string) : string :=
  match lit with
  | EmptyString => replace_empty repl s
  | _ => replace_from lit repl 0 s
  end.

(* ===================================================================== *)
(** ** Series operations                                                  *)
(* ===================================================================== *)

(** [series.str.len()]: the length of each string; a null stays null. The
    parser only compares the result with zero. *)
Definition len_cell (v : value) : value :=
  match v with
  | Str s => Int (Z.of_nat (String.length s))
  | _ => Null
  end.

(** [series == k] and [series != k] against an integer; a comparison with a
    null is null. *)
Definition eq_cell (k : Z) (v : value) : value :=
  match v with
  | Int n => Bool (Z.eqb n k)
  | Null => Null
  | _ => Bool false
  end.

Definition ne_cell (k : Z) (v : value) : value :=
  match v with
  | Int n => Bool (negb (Z.eqb n k))
  | Null => Null
  | _ => Bool true
  end.

(** A boolean series used as a row selector: a null selects nothing. *)
Definition selects (v : value) : bool :=
  match v with Bool true => true | _ => false end.

(** [fillna(fill)]: every null becomes the string [fill]. *)
Definition fill_cell (fill : string) (v : value) : value :=
  match v with Null => Str fill | _ => v end.

(* ===================================================================== *)
(** ** Frame operations (on frame values)                                 *)
(* ===================================================================== *)

(** Keep the elements of [l] whose selector is true. *)
Fixpoint mask {A : Type} (m : list bool) (l : list A) : list A :=
  match m, l with
  | b :: m', x :: l' => if b then x :: mask m' l' else mask m' l'
  | _, _ => []
  end.

(** [df[c] = s] on the frame value. *)
Definition df_set (c : string) (s : Series) (df : DataFrame) : DataFrame :=
  {| index := index df; columns := <[c := s]> (columns df) |}.

(** [df[selector]]: the selected rows, with their labels. *)
Definition df_filter (m : list bool) (df : DataFrame) : DataFrame :=
  {| index := mask m (index df); columns := mask m <$> columns df |}.

(** [df.empty]: no item at all, that is no row or no column. *)
Definition df_empty (df : DataFrame) : bool :=
  bool_decide (nrows df = 0 ∨ size (columns df) = 0).

(** Concatenation of two frames along the rows: the rows of [a], then the
    rows of [b]; a column that one frame lacks is null there. *)
Definition concat_column (na nb : nat) (x y : option Series) : option Series :=
  match x, y with
  | Some s, Some t => Some (s ++ t)
  | Some s, None => Some (s ++ replicate nb Null)
  | None, Some t => Some (replicate na Null ++ t)
  | None, None => None
  end.

Definition concat2 (a b : DataFrame) : DataFrame :=
  {| index := index a ++ index b;
     columns := merge (concat_column (nrows a) (nrows b))
                  (columns a) (columns b) |}.

(** [df.fillna(fill)] on the frame value. *)
Definition df_fillna (fill : string) (df : DataFrame) : DataFrame :=
  {| index := index df; columns := (map (fill_cell fill)) <$> columns df |}.

(** Removal of a list of columns from the frame value. *)
Definition df_drop (labels : list string) (df : DataFrame) : DataFrame :=
  {| index := index df;
     columns := foldl (fun cols c => delete c cols) (columns df) labels |}.

(* ===================================================================== *)
(** ** Exceptions and the object store                                    *)
(* ===================================================================== *)

(** The exceptions that can leave the modelled code. The source defines no
    exception class and catches nothing: what the engine or the loader raises
    reaches the caller. *)
Inductive exception : Type :=
  | KeyError (label : string)         (* [df[c]] with no column [c] *)
  | NameError (label : string)        (* [drop] of an absent column *)
  | AttributeError                    (* [.str] on a column without strings *)
  | TypeError                         (* a row selector that is not boolean *)
  | ValueError                        (* a length mismatch, an empty [concat] *)
  | ReferenceError                    (* a reference to no object *)
  | NotModelled                       (* a pattern outside the fragment *)
  | ResourceNotFound (path : string)  (* the resource cannot be located *)
  | InvalidPattern (path : string)    (* the resource holds no valid pattern *)
  | UnknownEvent (event : string).    (* no pattern under that event name *)

Inductive outcome (A : Type) : Type :=
  | Return (a : A)
  | Raise (e : exception).
Arguments Return {A} a.
Arguments Raise {A} e.

#[global] Instance outcome_ret : MRet outcome := fun A a => Return a.
#[global] Instance outcome_bind : MBind outcome := fun A B f m =>
  match m with Return a => f a | Raise e => Raise e end.

(** Modelled from the spec: the error taxonomy of the design (section 7),
    which the source does not spell out. A missing or malformed pattern
    resource and a missing named pattern are configuration errors; a required
    column that is absent is a schema error. *)
Inductive error_class : Type :=
  | ConfigurationError
  | SchemaError
  | EngineError.

Definition classify (e : exception) : error_class :=
  match e with
  | ResourceNotFound _ | InvalidPattern _ | UnknownEvent _ => ConfigurationError
  | KeyError _ => SchemaError
  | _ => EngineError
  end.

(** Frames are objects: a variable holds a reference, and an assignment
    [df[c] = s] changes the object for everyone who holds a reference to it.
    The store is the list of the objects allocated so far; a reference is a
    position in it. *)
Abbreviation ref := nat.
Abbreviation store := (list DataFrame).

(** Computations over the store that may raise. An exception leaves the
    store as it is at that point: nothing is rolled back. *)
Definition M (A : Type) : Type := store -> outcome A * store.

#[global] Instance M_ret : MRet M := fun A a h => (Return a, h).
#[global] Instance M_bind : MBind M := fun A B f m h =>
  match m h with
  | (Return a, h') => f a h'
  | (Raise e, h') => (Raise e, h')
  end.

Definition raise {A : Type} (e : exception) : M A := fun h => (Raise e, h).

Definition deref (r : ref) : M DataFrame := fun h =>
  match h !! r with
  | Some df => (Return df, h)
  | None => (Raise ReferenceError, h)
  end.

Definition assign (r : ref) (df : DataFrame) : M unit := fun h =>
  (Return (), <[r := df]> h).

Definition new (df : DataFrame) : M ref := fun h =>
  (Return (length h), h ++ [df]).

(** [for x in items: s = body(x, s)]. *)
Fixpoint for_each {A S : Type} (items : list A) (body : A -> S -> M S) (s : S)
  : M S :=
  match items with
  | [] => mret s
  | x :: items' => s' ← body x s; for_each items' body s'
  end.

(* ===================================================================== *)
(** ** The engine's operations, on references                             *)
(* ===================================================================== *)

(** [df[c]] *)
Definition getitem (df : ref) (c : string) : M Series :=
  d ← deref df;
  match columns d !! c with
  | Some s => mret s
  | None => raise (KeyError c)
  end.

(** [df[c] = s]: assigns into the object [df] refers to. *)
Definition setitem (df : ref) (c : string) (s : Series) : M unit :=
  d ← deref df;
  if bool_decide (length s = nrows d)
  then assign df (df_set c s d)
  else raise ValueError.

(** The pattern as the engine reads it. *)
Definition compile_pattern (pat : string) (regex : bool) : option string :=
  if regex then re_literal pat else Some pat.

Definition replace_cell (lit repl : string) (v : value) : value :=
  match v with
  | Str s => Str (replace_all lit repl s)
  | _ => v
  end.

(** [s.str.replace(pat, repl, regex=...)]: a new series. *)
Definition str_replace (s : Series) (pat repl : string) (regex : bool)
  : M Series :=
  if forallb is_str_or_null s then
    match compile_pattern pat regex with
    | Some lit => mret (map (replace_cell lit repl) s)
    | None => raise NotModelled
    end
  else raise AttributeError.

(** The engine declares [replace(pat, repl, n=-1, regex=True)]: when a call
    passes no [regex] argument, as the cleaning step does, the pattern is read
    as a regular expression. *)
Definition regex_default : bool := true.

(** [s.str.len()] *)
Definition str_len (s : Series) : M Series :=
  if forallb is_str_or_null s then mret (map len_cell s)
  else raise AttributeError.

(** [df[selector]] with a boolean series: a new frame. *)
Definition getitem_mask (df : ref) (selector : Series) : M ref :=
  d ← deref df;
  if forallb is_bool_or_null selector && bool_decide (length selector = nrows d)
  then new (df_filter (map selects selector) d)
  else raise TypeError.

(** [df.empty] *)
Definition empty (df : ref) : M bool :=
  d ← deref df; mret (df_empty d).

(** [cudf.concat(objs)]: a new frame. *)
Definition concat (objs : list ref) : M ref :=
  match objs with
  | [] => raise ValueError
  | r :: rs =>
      d ← deref r;
      ds ← mapM deref rs;
      new (foldl concat2 d ds)
  end.

(** [df.fillna(fill)]: a new frame. *)
Definition fillna (df : ref) (fill : string) : M ref :=
  d ← deref df; new (df_fillna fill d).

(** [df.drop(labels)]: a copy without the columns [labels]; every label must
    name a column. *)
Definition drop (df : ref) (labels : list string) : M ref :=
  d ← deref df;
  match List.find (fun c => bool_decide (columns d !! c = None)) labels with
  | Some c => raise (NameError c)
  | None => new (df_drop labels d)
  end.

(* ===================================================================== *)
(** ** The base class [EventParser]                                       *)
(* ===================================================================== *)

(** Modelled from the spec: the named pattern of section 3, which the base
    class keeps per event type and which is not among the sources. It has
    its capture groups, and what it captures in a text: [pmatch text = None]
    when the text does not match at all; a group that took no part in a match
    is absent from the captures. *)
Record Pattern : Type := mkPattern {
  groups : gset string;
  pmatch : string -> option (gmap string string)
}.

(** Modelled from the spec: the state of the base class, which is not among
    the sources: the mapping from event type to pattern that the constructor
    receives. *)
Record EventParser : Type := mkEventParser {
  event_regex : gmap string Pattern
}.

(** Modelled from the spec: the constructor of the base class, which is not
    among the sources; it stores the mapping it is given. *)
Definition EventParser_init (event_regex : gmap string Pattern) : EventParser :=
  {| event_regex := event_regex |}.

(** What group [g] captures in one cell of the text column: null when the
    text is null, when it does not match, or when the group took no part. *)
Definition capture_cell (pat : Pattern) (g : string) (v : value) : value :=
  match v with
  | Str text =>
      match pmatch pat text with
      | Some caps => match caps !! g with Some s => Str s | None => Null end
      | None => Null
      end
  | _ => Null
  end.

Definition extract_frame (pat : Pattern) (idx : list nat) (texts : Series)
  : DataFrame :=
  {| index := idx;
     columns := map_imap (fun g _ => Some (map (capture_cell pat g) texts))
                  (gset_to_gmap () (groups pat)) |}.

(** Modelled from the spec: [EventParser.parse_raw_event], which is not among
    the sources. Per sections 3, 4.2 and 6: the single named pattern of the
    event type is applied to every row of the text column and produces a new
    dataset with the rows of the input and one column per named group; a row
    that does not match yields absent captures; the text column must exist
    and hold strings. *)
Definition parse_raw_event (self : EventParser) (dataframe : ref)
    (raw_column : string) (event : string) : M ref :=
  match event_regex self !! event with
  | None => raise (UnknownEvent event)
  | Some pat =>
      d ← deref dataframe;
      texts ← getitem dataframe raw_column;
      if forallb is_str_or_null texts
      then new (extract_frame pat (index d) texts)
      else raise AttributeError
  end.

(** What construction reads from its surroundings: where the module is
    installed, the files, and the reader of pattern resources. *)
Record Environment : Type := mkEnvironment {
  module_dir : string;
  read_file : string -> option string;
  compile_regex : string -> option Pattern
}.

(** Modelled from the spec: [EventParser._load_regex_yaml], which is not among
    the sources. Per section 4.2 it fails when the resource cannot be located
    or does not parse as a valid pattern. *)
Definition _load_regex_yaml (env : Environment) (yaml_file : string)
  : outcome Pattern :=
  match read_file env yaml_file with
  | None => Raise (ResourceNotFound yaml_file)
  | Some text =>
      match compile_regex env text with
      | None => Raise (InvalidPattern yaml_file)
      | Some pat => Return pat
      end
  end.

(* ===================================================================== *)
(** ** [SplunkNotableParser]                                              *)
(* ===================================================================== *)

Definition REGEX_FILE : string := "resources/splunk_notable_regex.yaml".
Definition EVENT_NAME : string := "notable".

Definition __init__ (env : Environment) : outcome EventParser :=
  let event_regex : gmap string Pattern := ∅ in
  let regex_filepath := module_dir env +:+ "/" +:+ REGEX_FILE in
  pat ← _load_regex_yaml env regex_filepath;
  let event_regex := <[EVENT_NAME := pat]> event_regex in
  mret (EventParser_init event_regex).

(** The pattern of the cleaning step, as the engine receives it: the Python
    literal of the source denotes two backslash characters. *)
Definition cleaning_pattern : string := "\\".

(** One round of the loop of [_process_ip_fields], for the field [ip]. The
    logging calls only format the shapes of the frames and are left out. *)
Definition process_ip_field (ip : string) (parsed_dataframe : ref) : M ref :=
  let ip2 := ip +:+ "2" in
  let ip_len := ip +:+ "_len" in
  col ← getitem parsed_dataframe ip;
  lens ← str_len col;
  setitem parsed_dataframe ip_len lens;;
  lens0 ← getitem parsed_dataframe ip_len;
  tmp_dataframe ← getitem_mask parsed_dataframe (map (eq_cell 0) lens0);
  lens1 ← getitem parsed_dataframe ip_len;
  parsed_dataframe ← getitem_mask parsed_dataframe (map (ne_cell 0) lens1);
  tmp_is_empty ← empty tmp_dataframe;
  parsed_dataframe ←
    (if negb tmp_is_empty then
       alt ← getitem tmp_dataframe ip2;
       setitem tmp_dataframe ip alt;;
       parsed_is_empty ← empty parsed_dataframe;
       if negb parsed_is_empty
       then concat [parsed_dataframe; tmp_dataframe]
       else mret tmp_dataframe
     else mret parsed_dataframe);
  drop parsed_dataframe [ip_len; ip2].

Definition _process_ip_fields (self : EventParser) (parsed_dataframe : ref)
  : M ref :=
  for_each ["src_ip"; "dest_ip"] process_ip_field parsed_dataframe.

Definition parse (self : EventParser) (dataframe : ref) (raw_column : string)
  : M ref :=
  raw ← getitem dataframe raw_column;
  cleaned ← str_replace raw cleaning_pattern "" regex_default;
  setitem dataframe raw_column cleaned;;
  parsed_dataframe ← parse_raw_event self dataframe raw_column EVENT_NAME;
  parsed_dataframe ← fillna parsed_dataframe "";
  parsed_dataframe ← _process_ip_fields self parsed_dataframe;
  mret parsed_dataframe.

(* ===================================================================== *)
(** ** A sample pattern                                                   *)
(* ===================================================================== *)

(** The pattern resource is not among the sources, so the parser is verified
    for an arbitrary pattern. The instances below use this one: the text is a
    sequence of [key=value] tokens separated by spaces, and a group captures
    the value of the token whose key is its name. A text with no token for
    any group does not match. *)
Fixpoint tokens (s : string) : list string :=
  match s with
  | EmptyString => [EmptyString]
  | String c s' =>
      if Ascii.eqb c " " then EmptyString :: tokens s'
      else match tokens s' with
           | t :: ts => String c t :: ts
           | [] => [String c EmptyString]
           end
  end.

Fixpoint key_value (t : string) : option (string * string) :=
  match t with
  | EmptyString => None
  | String c t' =>
      if Ascii.eqb c "=" then Some (EmptyString, t')
      else (fun kv => (String c kv.1, kv.2)) <$> key_value t'
  end.

Definition kv_match (gs : gset string) (text : string)
  : option (gmap string string) :=
  match filter (fun kv => kv.1 ∈ gs) (omap key_value (tokens text)) with
  | [] => None
  | kvs => Some (list_to_map kvs)
  end.

Definition kv_pattern (gs : gset string) : Pattern :=
  {| groups := gs; pmatch := kv_match gs |}.

Definition ip_groups : gset string :=
  {[ "src_ip"; "src_ip2"; "dest_ip"; "dest_ip2" ]}.

Definition sample_parser (gs : gset string) : EventParser :=
  EventParser_init {[ EVENT_NAME := kv_pattern gs ]}.

(* ===================================================================== *)
(** ** Rows of a frame                                                    *)
(* ===================================================================== *)

(** The cell of a row under a column name; null when the row has none. *)
Definition cell (r : gmap string value) (c : string) : value :=
  default Null (r !! c).

(** The rows of a frame, from the first to the last: the label of the row and
    its cells by column name. *)
Fixpoint rows_of (idx : list nat) (cols : gmap string (list value))
  : list (nat * gmap string value) :=
  match idx with
  | [] => []
  | l :: idx' => (l, omap head cols) :: rows_of idx' (tail <$> cols)
  end.

Definition rows (df : DataFrame) : list (nat * gmap string value) :=
  rows_of (index df) (columns df).

(** The column [c] of a frame, empty when there is none. *)
Definition column (df : DataFrame) (c : string) : Series :=
  default [] (columns df !! c).

(* ===================================================================== *)
(** ** The frames one round of the fallback merge goes through            *)
(* ===================================================================== *)

Definition alt_name (ip : string) : string := ip +:+ "2".
Definition len_name (ip : string) : string := ip +:+ "_len".

(** The frame with its length column. *)
Definition with_len (ip : string) (df : DataFrame) : DataFrame :=
  df_set (len_name ip) (map len_cell (column df ip)) df.

(** [tmp_dataframe]: the rows whose [ip] has length zero. *)
Definition zero_group (ip : string) (df : DataFrame) : DataFrame :=
  df_filter (map selects (map (eq_cell 0) (map len_cell (column df ip))))
    (with_len ip df).

(** [parsed_dataframe] after the split: the rows whose [ip] has another
    length. *)
Definition nonzero_group (ip : string) (df : DataFrame) : DataFrame :=
  df_filter (map selects (map (ne_cell 0) (map len_cell (column df ip))))
    (with_len ip df).

(** [tmp_dataframe] after [tmp_dataframe[ip] = tmp_dataframe[ip2]]. *)
Definition overwritten (ip : string) (tmp : DataFrame) : DataFrame :=
  df_set ip (column tmp (alt_name ip)) tmp.

(** The frame before the final [drop] of the round. *)
Definition recombined (ip : string) (df : DataFrame) : DataFrame :=
  if df_empty (zero_group ip df) then nonzero_group ip df
  else if df_empty (nonzero_group ip df) then overwritten ip (zero_group ip df)
  else concat2 (nonzero_group ip df) (overwritten ip (zero_group ip df)).

(** The frame the round returns. *)
Definition pass_frame (ip : string) (df : DataFrame) : DataFrame :=
  df_drop [len_name ip; alt_name ip] (recombined ip df).

(** The objects a round allocates before the frame it returns, as the round
    leaves them: the two groups, the zero-length group overwritten when the
    overwrite is run, and the concatenation when it is run. *)
Definition round_objects (ip : string) (df : DataFrame) : list DataFrame :=
  if df_empty (zero_group ip df)
  then [zero_group ip df; nonzero_group ip df]
  else if df_empty (nonzero_group ip df)
  then [overwritten ip (zero_group ip df); nonzero_group ip df]
  else [overwritten ip (zero_group ip df); nonzero_group ip df;
        concat2 (nonzero_group ip df) (overwritten ip (zero_group ip df))].

(** A cell of the text column after the cleaning step: the engine reads the
    pattern of the step as the single backslash. *)
Definition clean_cell (v : value) : value :=
  replace_cell (String backslash EmptyString) "" v.

(** The text column after the cleaning step. *)
Definition clean (texts : Series) : Series := map clean_cell texts.

(** The frame after extraction and null filling, before the merge. *)
Definition extracted (pat : Pattern) (idx : list nat) (texts : Series)
  : DataFrame :=
  df_fillna "" (extract_frame pat idx (clean texts)).

(** The frame [_process_ip_fields] returns. *)
Definition merged (df : DataFrame) : DataFrame :=
  pass_frame "dest_ip" (pass_frame "src_ip" df).

(** The frame [parse] returns. *)
Definition parsed (pat : Pattern) (idx : list nat) (texts : Series)
  : DataFrame :=
  merged (extracted pat idx texts).

(* ===================================================================== *)
(** ** The merge, row by row                                              *)
(* ===================================================================== *)

Definition is_text (v : value) : bool :=
  match v with Str s => negb (String.eqb s "") | _ => false end.

(** The primary field of the row is the empty string. *)
Definition has_empty (ip : string) (lr : nat * gmap string value) : Prop :=
  cell lr.2 ip = Str "".

(** The primary field of the row is a non-empty string. *)
Definition has_text (ip : string) (lr : nat * gmap string value) : Prop :=
  is_text (cell lr.2 ip) = true.

#[global] Instance has_empty_dec ip lr : Decision (has_empty ip lr).
Proof. unfold has_empty. apply _. Defined.
#[global] Instance has_text_dec ip lr : Decision (has_text ip lr).
Proof. unfold has_text. apply _. Defined.

(** The order in which a round returns the rows. *)
Definition regroup (ip : string) (l : list (nat * gmap string value))
  : list (nat * gmap string value) :=
  filter (has_text ip) l ++ filter (has_empty ip) l.

(** The value of the primary field after the merge. *)
Definition fallback (primary alternate : value) : value :=
  if decide (primary = Str "") then alternate else primary.

(** What a round does to one row. *)
Definition merge_row (ip : string) (r : gmap string value)
  : gmap string value :=
  let r1 := <[len_name ip := len_cell (cell r ip)]> r in
  let r2 := if decide (cell r ip = Str "")
            then <[ip := cell r1 (alt_name ip)]> r1 else r1 in
  delete (alt_name ip) (delete (len_name ip) r2).

Definition on_row (f : gmap string value -> gmap string value)
    (lr : nat * gmap string value) : nat * gmap string value :=
  (lr.1, f lr.2).

(** The captures of one cell of the text column, nulls filled. *)
Definition extract_row (pat : Pattern) (v : value) : gmap string value :=
  map_imap (fun g _ => Some (fill_cell "" (capture_cell pat g v)))
    (gset_to_gmap () (groups pat)).

(** The row [parse] makes of one cell of the raw text column. *)
Definition parsed_row (pat : Pattern) (v : value) : gmap string value :=
  merge_row "dest_ip" (merge_row "src_ip"
    (extract_row pat (clean_cell v))).

(** The alternate fields and the length columns of the two rounds. *)
Definition dropped_columns : gset string :=
  {[ "src_ip2"; "dest_ip2"; "src_ip_len"; "dest_ip_len" ]}.

(** The columns [parse] returns, for a pattern with the groups [gs]. *)
Definition output_columns (gs : gset string) : gset string :=
  gs ∖ dropped_columns.

(** The cleaning step as the design describes it: each doubled backslash is
    removed, and nothing else. *)
Definition collapse_doubled_backslashes (s : string) : string :=
  replace_all cleaning_pattern "" s.

(** The string without its backslash characters. *)
Fixpoint remove_backslashes (s : string) : string :=
  match s with
  | EmptyString => EmptyString
  | String c s' =>
      if Ascii.eqb c backslash then remove_backslashes s'
      else String c (remove_backslashes s')
  end.

(** What both rounds do to one row. *)
Definition merge_rows (r : gmap string value) : gmap string value :=
  merge_row "dest_ip" (merge_row "src_ip" r).

(* ===================================================================== *)
(** ** When a call goes through                                           *)
(* ===================================================================== *)

Definition has_column (df : DataFrame) (c : string) : Prop :=
  is_Some (columns df !! c).

(** The column exists and holds strings and nulls only. *)
Definition has_text_column (df : DataFrame) (c : string) : Prop :=
  exists s, columns df !! c = Some s /\ forallb is_str_or_null s = true.

(** The column exists and holds strings only, as after null filling. *)
Definition has_str_column (df : DataFrame) (c : string) : Prop :=
  exists s, columns df !! c = Some s /\ forallb is_str s = true.

(** A round for [ip] can run on the frame at [p]. *)
Definition round_ready (ip : string) (h : store) (p : ref) (df : DataFrame)
  : Prop :=
  h !! p = Some df /\ wf df /\ has_text_column df ip
  /\ has_column df (alt_name ip).

(** The frame is as extraction and null filling leave it: the primary
    fields hold strings, and the alternate fields are there. *)
Definition merge_ready (df : DataFrame) : Prop :=
  wf df
  /\ has_str_column df "src_ip" /\ has_column df "src_ip2"
  /\ has_str_column df "dest_ip" /\ has_column df "dest_ip2".

(** [parse] is called with a parser that holds the pattern [pat] with the
    four address groups, on a reference to the frame [df], whose column
    [raw_column] holds the texts. *)
Definition parse_ready (self : EventParser) (pat : Pattern) (h : store)
    (dataframe : ref) (raw_column : string) (df : DataFrame) (texts : Series)
  : Prop :=
  event_regex self !! EVENT_NAME = Some pat
  /\ ip_groups ⊆ groups pat
  /\ h !! dataframe = Some df /\ wf df
  /\ columns df !! raw_column = Some texts
  /\ forallb is_str_or_null texts = true.

(** The cell of the text column does not match the pattern once cleaned. *)
Definition no_match (pat : Pattern) (v : value) : Prop :=
  match clean_cell v with
  | Str text => pmatch pat text = None
  | _ => True
  end.

(** The cleaning step on a column as the design describes it. *)
Definition collapse_doubled (texts : Series) : Series :=
  map (fun v => match v with
                | Str s => Str (collapse_doubled_backslashes s)
                | _ => v
                end) texts.

(** The cleaning step on a column: every backslash goes. *)
Definition strip_backslashes (texts : Series) : Series :=
  map (fun v => match v with
                | Str s => Str (remove_backslashes s)
                | _ => v
                end) texts.

(* ===================================================================== *)
(** ** Sample inputs                                                      *)
(* ===================================================================== *)

Definition notable_parser : EventParser :=
  sample_parser (ip_groups ∪ {[ "user" ]}).

Definition notable_pattern : Pattern :=
  kv_pattern (ip_groups ∪ {[ "user" ]}).

Definition frame_of (texts : list string) : DataFrame :=
  {| index := seq 0 (length texts); columns := {[ "raw" := map Str texts ]} |}.

(** One row whose source address is escaped and whose destination address is
    only in the alternate field. *)
Definition scenario_text : string :=
  "src_ip=\\10.0.0.1 dest_ip= dest_ip2=10.0.0.2".
Definition scenario_frame : DataFrame := frame_of [scenario_text].

(** Five rows; the second and the fourth match nothing. *)
Definition five_texts : list string :=
  [ "src_ip=1.1.1.1 dest_ip=2.2.2.2 user=ann";
    "no address here";
    "src_ip= src_ip2=3.3.3.3 dest_ip=4.4.4.4 user=bob";
    "";
    "src_ip=5.5.5.5 dest_ip= dest_ip2=6.6.6.6" ].
Definition five_frame : DataFrame := frame_of five_texts.

(** Two rows; the first has its source address in the alternate field. *)
Definition two_texts : list string :=
  [ "src_ip= src_ip2=3.3.3.3 dest_ip=4.4.4.4";
    "src_ip=1.1.1.1 dest_ip=2.2.2.2" ].
Definition two_frame : DataFrame := frame_of two_texts.

(** One row with a single backslash. *)
Definition single_backslash_frame : DataFrame := frame_of ["a\b"].

(** A frame as extraction and null filling leave it, with one row per case
    of the merge. *)
Definition merge_frame : DataFrame :=
  {| index := [0; 1; 2];
     columns := {[ "src_ip" := [Str ""; Str "1.1.1.1"; Str ""];
                   "src_ip2" := [Str "3.3.3.3"; Str ""; Str ""];
                   "dest_ip" := [Str "4.4.4.4"; Str ""; Str ""];
                   "dest_ip2" := [Str ""; Str "2.2.2.2"; Str ""];
                   "user" := [Str "ann"; Str ""; Str "bob"] ]} |}.

(** Frames whose source address is empty on no row, and on every row. *)
Definition all_text_frame : DataFrame :=
  {| index := [0; 1];
     columns := {[ "src_ip" := [Str "1.1.1.1"; Str "5.5.5.5"];
                   "src_ip2" := [Str ""; Str "7.7.7.7"];
                   "dest_ip" := [Str "2.2.2.2"; Str "6.6.6.6"];
                   "dest_ip2" := [Str ""; Str ""] ]} |}.

Definition all_empty_frame : DataFrame :=
  {| index := [0; 1];
     columns := {[ "src_ip" := [Str ""; Str ""];
                   "src_ip2" := [Str "3.3.3.3"; Str ""] ]} |}.

(** A pattern resource for the construction. *)
Definition sample_environment (files : string -> option string) : Environment :=
  {| module_dir := "/opt/clx/parsers";
     read_file := files;
     compile_regex := fun text =>
       if String.eqb text "" then None else Some notable_pattern |}.

(** Frames that a round cannot work on: no primary field, a primary field
    that holds numbers, no alternate field. *)
Definition no_primary_frame : DataFrame :=
  {| index := [0; 1];
     columns := {[ "dest_ip" := [Str "2.2.2.2"; Str ""];
                   "dest_ip2" := [Str ""; Str "4.4.4.4"] ]} |}.

Definition number_primary_frame : DataFrame :=
  {| index := [0; 1];
     columns := {[ "src_ip" := [Int 1; Int 2];
                   "src_ip2" := [Str ""; Str "3.3.3.3"] ]} |}.

Definition no_alternate_frame : DataFrame :=
  {| index := [0; 1];
     columns := {[ "src_ip" := [Str ""; Str "1.1.1.1"];
                   "dest_ip" := [Str "2.2.2.2"; Str ""] ]} |}.

Definition no_alternate_text_frame : DataFrame :=
  {| index := [0; 1];
     columns := {[ "src_ip" := [Str "5.5.5.5"; Str "1.1.1.1"];
                   "dest_ip" := [Str "2.2.2.2"; Str ""] ]} |}.

(** A frame whose text column holds numbers. *)
Definition number_text_frame : DataFrame :=
  {| index := [0; 1]; columns := {[ "raw" := [Int 1; Int 2] ]} |}.

(** A parser whose pattern has no address group. *)
Definition user_parser : EventParser := sample_parser {[ "user" ]}.
Definition user_pattern : Pattern := kv_pattern {[ "user" ]}.

(* ===================================================================== *)
(** * Properties                                                          *)
(* ===================================================================== *)

(** ** Lists and masks *)

Lemma mask_nil {A} (m : list bool) : mask m (@nil A) = [].
Proof. by destruct m. Qed.



Lemma mask_self {A} (p : A -> bool) (l : list A) :
  mask (map p l) l = filter (fun x => p x = true) l.
Proof.
  induction l as [|x l IH]; simpl; [done|].
  rewrite filter_cons. destruct (p x) eqn:E.
  - rewrite decide_True by done. by rewrite IH.
  - rewrite decide_False by congruence. done.
Qed.




(** ** Rows under the frame operations *)

Lemma cols_wf_tail n cols : cols_wf (S n) cols -> cols_wf n (tail <$> cols).
Proof.
  intros Hwf c s. rewrite lookup_fmap. intros Hs.
  destruct (cols !! c) as [t|] eqn:E; simplify_eq/=.
  apply Hwf in E. destruct t; simplify_eq/=. done.
Qed.

Lemma cols_wf_cons n cols c s :
  cols_wf (S n) cols -> cols !! c = Some s -> exists x s', s = x :: s'.
Proof.
  intros Hwf Hc. apply Hwf in Hc. destruct s as [|x s']; simplify_eq/=. eauto.
Qed.

Lemma rows_of_length idx cols : length (rows_of idx cols) = length idx.
Proof.
  revert cols. induction idx as [|l idx IH]; intros cols; simpl; [done|].
  by rewrite IH.
Qed.

Lemma rows_of_labels idx cols : map fst (rows_of idx cols) = idx.
Proof.
  revert cols. induction idx as [|l idx IH]; intros cols; simpl; [done|].
  by rewrite IH.
Qed.

Lemma rows_of_filter m idx cols :
  rows_of (mask m idx) (mask m <$> cols) = mask m (rows_of idx cols).
Proof.
  revert idx cols. induction m as [|b m IH]; intros idx cols.
  { by destruct idx. }
  destruct idx as [|l idx]; [done|].
  assert (Htl : tail <$> (mask (true :: m) <$> cols)
                = mask m <$> (tail <$> cols)).
  { rewrite <- !map_fmap_compose. apply map_fmap_ext.
    intros c [|x s] _; simpl; by rewrite ?mask_nil. }
  assert (Hskip : mask (false :: m) <$> cols = mask m <$> (tail <$> cols)).
  { rewrite <- map_fmap_compose. apply map_fmap_ext.
    intros c [|x s] _; simpl; by rewrite ?mask_nil. }
  destruct b; simpl.
  - f_equal.
    + f_equal. apply map_eq. intros c. rewrite !lookup_omap, lookup_fmap.
      by destruct (cols !! c) as [[|x s]|].
    + rewrite <- IH. f_equal. exact Htl.
  - rewrite <- IH. f_equal. exact Hskip.
Qed.

Lemma rows_of_delete c idx cols :
  rows_of idx (delete c cols) = map (on_row (delete c)) (rows_of idx cols).
Proof.
  revert cols. induction idx as [|l idx IH]; intros cols; simpl; [done|].
  rewrite fmap_delete, IH. unfold on_row at 1. simpl.
  by rewrite omap_delete.
Qed.

Lemma rows_of_insert_map (f : value -> value) c c' s idx cols :
  cols_wf (length idx) cols ->
  cols !! c' = Some s ->
  rows_of idx (<[c := map f s]> cols)
  = map (on_row (fun r => <[c := f (cell r c')]> r)) (rows_of idx cols).
Proof.
  revert cols s. induction idx as [|l idx IH]; intros cols s Hwf Hc; simpl;
    [done|].
  destruct (cols_wf_cons _ _ _ _ Hwf Hc) as (x & s' & ->).
  rewrite fmap_insert. simpl.
  rewrite (IH (tail <$> cols) s').
  - unfold on_row at 2. simpl. f_equal. f_equal.
    unfold cell. rewrite lookup_omap, Hc. simpl.
    by apply omap_insert_Some.
  - by apply cols_wf_tail.
  - by rewrite lookup_fmap, Hc.
Qed.

Lemma rows_of_column c s idx cols :
  cols_wf (length idx) cols ->
  cols !! c = Some s ->
  map (fun lr => cell lr.2 c) (rows_of idx cols) = s.
Proof.
  revert cols s. induction idx as [|l idx IH]; intros cols s Hwf Hc; simpl.
  { apply Hwf in Hc. by destruct s. }
  destruct (cols_wf_cons _ _ _ _ Hwf Hc) as (x & s' & ->).
  rewrite (IH (tail <$> cols) s').
  - unfold cell. by rewrite lookup_omap, Hc.
  - by apply cols_wf_tail.
  - by rewrite lookup_fmap, Hc.
Qed.

Lemma rows_of_concat na nb ia ib ca cb :
  cols_wf (length ia) ca -> dom ca = dom cb ->
  rows_of (ia ++ ib) (merge (concat_column na nb) ca cb)
  = rows_of ia ca ++ rows_of ib cb.
Proof.
  revert ca. induction ia as [|l ia IH]; intros ca Hwf Hdom; simpl.
  - f_equal. apply map_eq. intros c. rewrite lookup_merge.
    assert (Hc : is_Some (ca !! c) <-> is_Some (cb !! c)).
    { by rewrite <- !elem_of_dom, Hdom. }
    destruct (ca !! c) as [s|] eqn:Ea, (cb !! c) as [t|] eqn:Eb; simpl;
      try done.
    + apply Hwf in Ea. by destruct s.
    + destruct Hc as [Hc _]. by destruct Hc.
    + destruct Hc as [_ Hc]. by destruct Hc.
  - assert (Hhead : omap head (merge (concat_column na nb) ca cb)
                    = omap head ca).
    { apply map_eq. intros c. rewrite !lookup_omap, lookup_merge.
      assert (Hc : is_Some (ca !! c) <-> is_Some (cb !! c)).
      { by rewrite <- !elem_of_dom, Hdom. }
      destruct (ca !! c) as [s|] eqn:Ea, (cb !! c) as [t|] eqn:Eb; simpl;
        try done.
      + destruct (cols_wf_cons _ _ _ _ Hwf Ea) as (x & s' & ->). done.
      + destruct Hc as [Hc _]. by destruct Hc.
      + destruct Hc as [_ Hc]. by destruct Hc. }
    assert (Htail : tail <$> merge (concat_column na nb) ca cb
                    = merge (concat_column na nb) (tail <$> ca) cb).
    { apply map_eq. intros c. rewrite lookup_fmap, !lookup_merge, lookup_fmap.
      assert (Hc : is_Some (ca !! c) <-> is_Some (cb !! c)).
      { by rewrite <- !elem_of_dom, Hdom. }
      destruct (ca !! c) as [s|] eqn:Ea, (cb !! c) as [t|] eqn:Eb; simpl;
        try done.
      + destruct (cols_wf_cons _ _ _ _ Hwf Ea) as (x & s' & ->). done.
      + destruct Hc as [Hc _]. by destruct Hc.
      + destruct Hc as [_ Hc]. by destruct Hc. }
    rewrite Hhead, Htail, IH; [done| by apply cols_wf_tail |].
    by rewrite dom_fmap_L.
Qed.

Lemma rows_of_imap {A} (F : string -> value -> value) (gs : gmap string A)
    idx (texts : list value) :
  length idx = length texts ->
  rows_of idx (map_imap (fun g _ => Some (map (F g) texts)) gs)
  = map (fun lv => (lv.1, map_imap (fun g _ => Some (F g lv.2)) gs))
      (zip idx texts).
Proof.
  revert texts. induction idx as [|l idx IH]; intros [|v texts] Hlen;
    simplify_eq/=; [done|].
  f_equal.
  - f_equal. apply map_eq. intros c.
    rewrite lookup_omap, !map_lookup_imap. by destruct (gs !! c).
  - rewrite <- IH by done. f_equal. apply map_eq. intros c.
    rewrite lookup_fmap, !map_lookup_imap. by destruct (gs !! c).
Qed.

(** ** Column names of a round *)

Lemma append_inj_r (p x y : string) : p +:+ x = p +:+ y -> x = y.
Proof.
  induction p as [|c p IH]; simpl; intros H; [done|].
  injection H as H. by apply IH.
Qed.

Lemma append_length (p x : string) :
  String.length (p +:+ x) = String.length p + String.length x.
Proof. induction p as [|c p IH]; simpl; [done|]. by rewrite IH. Qed.

Lemma alt_name_ne ip : alt_name ip <> ip.
Proof.
  intros H. apply (f_equal String.length) in H. unfold alt_name in H.
  rewrite append_length in H. simpl in H. lia.
Qed.

Lemma len_name_ne ip : len_name ip <> ip.
Proof.
  intros H. apply (f_equal String.length) in H. unfold len_name in H.
  rewrite append_length in H. simpl in H. lia.
Qed.

Lemma len_name_alt_name ip : len_name ip <> alt_name ip.
Proof. intros H. apply append_inj_r in H. discriminate. Qed.

(** ** Well-formed frames *)

Lemma mask_length_eq {A B} (m : list bool) (l1 : list A) (l2 : list B) :
  length l1 = length l2 -> length (mask m l1) = length (mask m l2).
Proof.
  revert l1 l2. induction m as [|b m IH]; intros [|x l1] [|y l2] Hlen;
    simplify_eq/=; try done.
  destruct b; simpl; by rewrite (IH l1 l2).
Qed.

Lemma wf_df_set c s df : wf df -> length s = nrows df -> wf (df_set c s df).
Proof.
  intros Hwf Hlen. unfold wf, cols_wf, df_set, nrows in *. simpl.
  by apply map_Forall_insert_2.
Qed.

Lemma wf_df_filter m df : wf df -> wf (df_filter m df).
Proof.
  intros Hwf c s. unfold df_filter, nrows. simpl. rewrite lookup_fmap.
  intros Hs. destruct (columns df !! c) as [t|] eqn:E; simplify_eq/=.
  apply mask_length_eq. by apply Hwf in E.
Qed.

Lemma wf_df_drop labels df : wf df -> wf (df_drop labels df).
Proof.
  unfold wf, df_drop, nrows. simpl. generalize (columns df).
  induction labels as [|c labels IH]; intros cols Hwf; simpl; [done|].
  apply IH. by apply map_Forall_delete.
Qed.

Lemma wf_concat2 a b : wf a -> wf b -> wf (concat2 a b).
Proof.
  intros Ha Hb c s. unfold concat2, nrows. simpl. rewrite lookup_merge.
  rewrite length_app.
  destruct (columns a !! c) as [x|] eqn:Ea, (columns b !! c) as [y|] eqn:Eb;
    simpl; intros ?; simplify_eq; rewrite length_app, ?length_replicate.
  - apply Ha in Ea. apply Hb in Eb. unfold nrows in *. lia.
  - apply Ha in Ea. unfold nrows in *. lia.
  - apply Hb in Eb. unfold nrows in *. lia.
Qed.

Lemma wf_extracted pat idx texts :
  length idx = length texts -> wf (extracted pat idx texts).
Proof.
  intros Hlen c s. unfold extracted, df_fillna, extract_frame, nrows. simpl.
  rewrite lookup_fmap, map_lookup_imap.
  destruct (gset_to_gmap () (groups pat) !! c); simpl; intros ?; simplify_eq.
  unfold clean. by rewrite !length_map.
Qed.

(** ** The frames of a round, by rows *)

Lemma rows_length df : length (rows df) = nrows df.
Proof. apply rows_of_length. Qed.

Lemma rows_labels df : map fst (rows df) = index df.
Proof. apply rows_of_labels. Qed.

Lemma rows_df_filter_column (p : value -> bool) c s df :
  wf df -> columns df !! c = Some s ->
  rows (df_filter (map p s) df)
  = filter (fun lr => p (cell lr.2 c) = true) (rows df).
Proof.
  intros Hwf Hc. unfold rows, df_filter. simpl. rewrite rows_of_filter.
  rewrite <- (rows_of_column c s (index df) (columns df)) at 1 by done.
  rewrite map_map. apply (mask_self (fun lr => p (cell lr.2 c))).
Qed.

Lemma rows_df_set_column (f : value -> value) c c' s df :
  wf df -> columns df !! c' = Some s ->
  rows (df_set c (map f s) df)
  = map (on_row (fun r => <[c := f (cell r c')]> r)) (rows df).
Proof. intros Hwf Hc. by apply rows_of_insert_map. Qed.

Lemma rows_concat2 a b :
  wf a -> dom (columns a) = dom (columns b) ->
  rows (concat2 a b) = rows a ++ rows b.
Proof. intros Hwf Hdom. by apply rows_of_concat. Qed.

Lemma rows_df_drop2 c1 c2 df :
  rows (df_drop [c1; c2] df)
  = map (on_row (fun r => delete c2 (delete c1 r))) (rows df).
Proof.
  unfold rows, df_drop. simpl. rewrite !rows_of_delete, map_map. done.
Qed.

Lemma selects_eq_len v : selects (eq_cell 0 (len_cell v)) = true <-> v = Str "".
Proof.
  destruct v as [|s|n|b]; simpl; try (split; intros; discriminate).
  destruct s as [|a s]; simpl; split; intros; try done.
Qed.

Lemma selects_ne_len v : selects (ne_cell 0 (len_cell v)) = is_text v.
Proof. destruct v as [|s|n|b]; simpl; try done. by destruct s. Qed.

Lemma filter_map_comm {A B} (f : A -> B) (P : B -> Prop)
    `{!forall y, Decision (P y)} (l : list A) :
  filter P (map f l) = map f (filter (fun x => P (f x)) l).
Proof.
  induction l as [|x l IH]; simpl; [done|].
  rewrite !filter_cons. destruct (decide (P (f x))); simpl; by rewrite IH.
Qed.

Lemma map_filter_ext {A B} (f g : A -> B) (P : A -> Prop)
    `{!forall x, Decision (P x)} (l : list A) :
  (forall x, P x -> f x = g x) -> map f (filter P l) = map g (filter P l).
Proof.
  intros Hfg. induction l as [|x l IH]; simpl; [done|].
  rewrite !filter_cons. destruct (decide (P x)); simpl; [|done].
  by rewrite IH, Hfg.
Qed.

Lemma df_empty_rows df :
  columns df <> ∅ -> df_empty df = true <-> rows df = [].
Proof.
  intros Hne. unfold df_empty. rewrite bool_decide_eq_true.
  rewrite <- (rows_length df). split.
  - intros [H|H]; [by apply length_zero_iff_nil|].
    by apply map_size_empty_iff in H.
  - intros ->. by left.
Qed.

Lemma df_filter_lookup m df c :
  columns (df_filter m df) !! c = mask m <$> columns df !! c.
Proof. unfold df_filter. simpl. by rewrite lookup_fmap. Qed.

Lemma df_set_dom c s df :
  dom (columns (df_set c s df)) = {[c]} ∪ dom (columns df).
Proof. unfold df_set. simpl. by rewrite dom_insert_L. Qed.

Section round.
Context (ip : string) (df : DataFrame) (s s2 : Series).
Hypothesis Hwf : wf df.
Hypothesis Hip : columns df !! ip = Some s.
Hypothesis Halt : columns df !! alt_name ip = Some s2.

(** What the round does to a row before the columns are dropped. *)
Let add_len (r : gmap string value) : gmap string value :=
  <[len_name ip := len_cell (cell r ip)]> r.
Let overwrite (r : gmap string value) : gmap string value :=
  <[ip := cell r (alt_name ip)]> r.

Lemma column_ip : column df ip = s.
Proof. unfold column. by rewrite Hip. Qed.

Lemma with_len_wf : wf (with_len ip df).
Proof.
  unfold with_len. apply wf_df_set; [done|].
  rewrite column_ip, length_map. by apply Hwf in Hip.
Qed.

Lemma with_len_lookup_ip : columns (with_len ip df) !! ip = Some s.
Proof.
  unfold with_len, df_set. simpl.
  rewrite lookup_insert_ne; [done | apply len_name_ne].
Qed.

Lemma with_len_lookup_alt : columns (with_len ip df) !! alt_name ip = Some s2.
Proof.
  unfold with_len, df_set. simpl.
  rewrite lookup_insert_ne; [done | apply len_name_alt_name].
Qed.


Lemma with_len_rows : rows (with_len ip df) = map (on_row add_len) (rows df).
Proof. unfold with_len. rewrite column_ip. by apply rows_df_set_column. Qed.

Lemma cell_add_len r : cell (add_len r) ip = cell r ip.
Proof.
  unfold add_len, cell. rewrite lookup_insert_ne; [done | apply len_name_ne].
Qed.

Lemma zero_group_rows :
  rows (zero_group ip df)
  = map (on_row add_len) (filter (has_empty ip) (rows df)).
Proof.
  unfold zero_group. rewrite column_ip, !map_map.
  rewrite (rows_df_filter_column
             (fun v => selects (eq_cell 0 (len_cell v))) ip s)
    by auto using with_len_wf, with_len_lookup_ip.
  rewrite with_len_rows, filter_map_comm. f_equal.
  apply list_filter_iff. intros [l r]. simpl.
  rewrite cell_add_len. apply selects_eq_len.
Qed.

Lemma nonzero_group_rows :
  rows (nonzero_group ip df)
  = map (on_row add_len) (filter (has_text ip) (rows df)).
Proof.
  unfold nonzero_group. rewrite column_ip, !map_map.
  rewrite (rows_df_filter_column
             (fun v => selects (ne_cell 0 (len_cell v))) ip s)
    by auto using with_len_wf, with_len_lookup_ip.
  rewrite with_len_rows, filter_map_comm. f_equal.
  apply list_filter_iff. intros [l r]. simpl.
  rewrite cell_add_len. unfold has_text. simpl. by rewrite selects_ne_len.
Qed.

Lemma zero_group_wf : wf (zero_group ip df).
Proof. apply wf_df_filter, with_len_wf. Qed.

Lemma nonzero_group_wf : wf (nonzero_group ip df).
Proof. apply wf_df_filter, with_len_wf. Qed.

Lemma zero_group_dom :
  dom (columns (zero_group ip df)) = {[len_name ip]} ∪ dom (columns df).
Proof.
  unfold zero_group, df_filter, with_len, df_set. simpl.
  by rewrite dom_fmap_L, dom_insert_L.
Qed.

Lemma nonzero_group_dom :
  dom (columns (nonzero_group ip df)) = {[len_name ip]} ∪ dom (columns df).
Proof.
  unfold nonzero_group, df_filter, with_len, df_set. simpl.
  by rewrite dom_fmap_L, dom_insert_L.
Qed.

Lemma zero_group_lookup_alt :
  exists t, columns (zero_group ip df) !! alt_name ip = Some t.
Proof.
  unfold zero_group. rewrite df_filter_lookup, with_len_lookup_alt.
  simpl. eauto.
Qed.

Lemma overwritten_wf : wf (overwritten ip (zero_group ip df)).
Proof.
  destruct zero_group_lookup_alt as [t Ht].
  unfold overwritten, column. rewrite Ht. simpl.
  apply wf_df_set; [apply zero_group_wf|]. by apply zero_group_wf in Ht.
Qed.

Lemma overwritten_dom :
  dom (columns (overwritten ip (zero_group ip df)))
  = {[len_name ip]} ∪ dom (columns df).
Proof.
  unfold overwritten. rewrite df_set_dom, zero_group_dom.
  assert (ip ∈ dom (columns df)) by (apply elem_of_dom; eauto).
  set_solver.
Qed.

Lemma overwritten_rows :
  rows (overwritten ip (zero_group ip df))
  = map (on_row (fun r => overwrite (add_len r)))
      (filter (has_empty ip) (rows df)).
Proof.
  destruct zero_group_lookup_alt as [t Ht].
  unfold overwritten, column. rewrite Ht. simpl.
  rewrite <- (map_id t) at 1.
  rewrite (rows_df_set_column id ip (alt_name ip) t)
    by auto using zero_group_wf.
  rewrite zero_group_rows, map_map. done.
Qed.

Lemma zero_group_empty :
  df_empty (zero_group ip df) = true <-> filter (has_empty ip) (rows df) = [].
Proof.
  rewrite df_empty_rows, zero_group_rows.
  - split; [apply map_eq_nil | by intros ->].
  - intros H. apply (f_equal dom) in H. rewrite zero_group_dom in H.
    set_solver.
Qed.

Lemma nonzero_group_empty :
  df_empty (nonzero_group ip df) = true <-> filter (has_text ip) (rows df) = [].
Proof.
  rewrite df_empty_rows, nonzero_group_rows.
  - split; [apply map_eq_nil | by intros ->].
  - intros H. apply (f_equal dom) in H. rewrite nonzero_group_dom in H.
    set_solver.
Qed.

Lemma recombined_rows :
  rows (recombined ip df)
  = map (on_row add_len) (filter (has_text ip) (rows df))
    ++ map (on_row (fun r => overwrite (add_len r)))
         (filter (has_empty ip) (rows df)).
Proof.
  unfold recombined.
  destruct (df_empty (zero_group ip df)) eqn:Ez.
  { apply zero_group_empty in Ez. rewrite Ez. simpl.
    by rewrite app_nil_r, nonzero_group_rows. }
  destruct (df_empty (nonzero_group ip df)) eqn:En.
  { apply nonzero_group_empty in En. rewrite En. simpl.
    by rewrite overwritten_rows. }
  rewrite rows_concat2, nonzero_group_rows, overwritten_rows;
    [done | apply nonzero_group_wf |].
  by rewrite nonzero_group_dom, overwritten_dom.
Qed.

Lemma recombined_wf : wf (recombined ip df).
Proof.
  unfold recombined.
  destruct (df_empty (zero_group ip df)); [apply nonzero_group_wf|].
  destruct (df_empty (nonzero_group ip df)); [apply overwritten_wf|].
  apply wf_concat2; auto using nonzero_group_wf, overwritten_wf.
Qed.

Lemma recombined_dom :
  dom (columns (recombined ip df)) = {[len_name ip]} ∪ dom (columns df).
Proof.
  unfold recombined.
  destruct (df_empty (zero_group ip df)); [apply nonzero_group_dom|].
  destruct (df_empty (nonzero_group ip df)); [apply overwritten_dom|].
  apply set_eq. intros c. unfold concat2. cbn [columns].
  assert (Hn : c ∈ ({[len_name ip]} ∪ dom (columns df) : gset string)
               <-> is_Some (columns (nonzero_group ip df) !! c)).
  { rewrite <- nonzero_group_dom. apply elem_of_dom. }
  assert (Ho : c ∈ ({[len_name ip]} ∪ dom (columns df) : gset string)
               <-> is_Some (columns (overwritten ip (zero_group ip df)) !! c)).
  { rewrite <- overwritten_dom. apply elem_of_dom. }
  rewrite elem_of_dom, lookup_merge. revert Hn Ho.
  destruct (columns (nonzero_group ip df) !! c),
    (columns (overwritten ip (zero_group ip df)) !! c); simpl;
    intros Hn Ho; rewrite ?is_Some_alt in *; tauto.
Qed.

Lemma pass_frame_wf : wf (pass_frame ip df).
Proof. apply wf_df_drop, recombined_wf. Qed.

Lemma pass_frame_dom :
  dom (columns (pass_frame ip df))
  = dom (columns df) ∖ {[len_name ip; alt_name ip]}.
Proof.
  unfold pass_frame, df_drop. simpl.
  rewrite !dom_delete_L, recombined_dom. set_solver.
Qed.

Lemma pass_frame_rows :
  rows (pass_frame ip df) = map (on_row (merge_row ip)) (regroup ip (rows df)).
Proof.
  unfold pass_frame. rewrite rows_df_drop2, recombined_rows.
  unfold regroup. rewrite !map_app, !map_map. f_equal.
  - apply map_filter_ext. intros [l r] Ht. unfold on_row, merge_row. simpl.
    f_equal. rewrite decide_False; [done|].
    intros He. unfold has_text in Ht. simpl in Ht. by rewrite He in Ht.
  - apply map_filter_ext. intros [l r] He. unfold on_row, merge_row. simpl.
    f_equal. unfold has_empty in He. simpl in He. by rewrite decide_True.
Qed.
End round.

(** ** Running the engine's operations *)

Lemma run_bind {A B} (m : M A) (f : A -> M B) h a h1 res :
  m h = (Return a, h1) -> f a h1 = res -> (m ≫= f) h = res.
Proof. intros H1 H2. unfold mbind, M_bind. by rewrite H1. Qed.

Lemma run_bind_raise {A B} (m : M A) (f : A -> M B) h e h1 :
  m h = (Raise e, h1) -> (m ≫= f) h = (Raise e, h1).
Proof. intros H1. unfold mbind, M_bind. by rewrite H1. Qed.

Lemma run_deref r d h : h !! r = Some d -> deref r h = (Return d, h).
Proof. intros H. unfold deref. by rewrite H. Qed.

Lemma run_getitem r c d s h :
  h !! r = Some d -> columns d !! c = Some s -> getitem r c h = (Return s, h).
Proof.
  intros Hr Hc. unfold getitem. eapply run_bind; [by apply run_deref|].
  by rewrite Hc.
Qed.

Lemma run_getitem_missing r c d h :
  h !! r = Some d -> columns d !! c = None ->
  getitem r c h = (Raise (KeyError c), h).
Proof.
  intros Hr Hc. unfold getitem. eapply run_bind; [by apply run_deref|].
  by rewrite Hc.
Qed.

Lemma run_setitem r c s d h :
  h !! r = Some d -> length s = nrows d ->
  setitem r c s h = (Return (), <[r := df_set c s d]> h).
Proof.
  intros Hr Hlen. unfold setitem. eapply run_bind; [by apply run_deref|].
  by rewrite bool_decide_true.
Qed.

Lemma run_str_len s h :
  forallb is_str_or_null s = true -> str_len s h = (Return (map len_cell s), h).
Proof. intros Hs. unfold str_len. by rewrite Hs. Qed.

Lemma run_getitem_mask r sel d h :
  h !! r = Some d -> forallb is_bool_or_null sel = true ->
  length sel = nrows d ->
  getitem_mask r sel h
  = (Return (length h), h ++ [df_filter (map selects sel) d]).
Proof.
  intros Hr Hsel Hlen. unfold getitem_mask.
  eapply run_bind; [by apply run_deref|].
  by rewrite Hsel, bool_decide_true.
Qed.

Lemma run_empty r d h : h !! r = Some d -> empty r h = (Return (df_empty d), h).
Proof.
  intros Hr. unfold empty. eapply run_bind; [by apply run_deref|]. done.
Qed.

Lemma run_concat2 r1 r2 d1 d2 h :
  h !! r1 = Some d1 -> h !! r2 = Some d2 ->
  concat [r1; r2] h = (Return (length h), h ++ [concat2 d1 d2]).
Proof.
  intros H1 H2. unfold concat. eapply run_bind; [by apply run_deref|].
  eapply run_bind.
  { simpl. eapply run_bind; [by apply run_deref|]. reflexivity. }
  reflexivity.
Qed.

Lemma run_fillna r fill d h :
  h !! r = Some d ->
  fillna r fill h = (Return (length h), h ++ [df_fillna fill d]).
Proof.
  intros Hr. unfold fillna. eapply run_bind; [by apply run_deref|]. done.
Qed.

Lemma run_drop2 r c1 c2 d h :
  h !! r = Some d -> is_Some (columns d !! c1) -> is_Some (columns d !! c2) ->
  drop r [c1; c2] h = (Return (length h), h ++ [df_drop [c1; c2] d]).
Proof.
  intros Hr [x1 H1] [x2 H2]. unfold drop.
  eapply run_bind; [by apply run_deref|]. simpl.
  rewrite H1, H2. rewrite !bool_decide_false by done. done.
Qed.

(** ** Lookups in a growing store *)

Lemma store_lookup_new (h : list DataFrame) d : (h ++ [d]) !! length h = Some d.
Proof. by rewrite lookup_app_r, Nat.sub_diag. Qed.

Lemma store_lookup_old (h : list DataFrame) r d d' :
  h !! r = Some d -> (h ++ [d']) !! r = Some d.
Proof. intros H. by apply lookup_app_l_Some. Qed.

Lemma store_lookup_assigned (h : list DataFrame) r d d' :
  h !! r = Some d -> <[r := d']> h !! r = Some d'.
Proof. intros H. apply list_lookup_insert_eq. by eapply lookup_lt_Some. Qed.

Lemma store_lookup_other (h : list DataFrame) r r' d d' :
  r <> r' -> h !! r' = Some d -> <[r := d']> h !! r' = Some d.
Proof. intros Hne H. by rewrite list_lookup_insert_ne. Qed.

Lemma store_prefix_new (h0 h : list DataFrame) d :
  h0 `prefix_of` h -> h0 `prefix_of` h ++ [d].
Proof. intros H. by apply prefix_app_r. Qed.

Lemma store_prefix_assigned (h0 h : list DataFrame) r d :
  h0 `prefix_of` h -> length h0 <= r -> h0 `prefix_of` <[r := d]> h.
Proof.
  intros [k ->] Hr. rewrite insert_app_r_alt by done. by apply prefix_app_r.
Qed.

Create HintDb store discriminated.
#[export] Hint Resolve store_lookup_new store_lookup_old store_lookup_assigned
  store_prefix_new store_prefix_assigned : store.
#[export] Hint Extern 3 (<[_ := _]> _ !! _ = Some _) =>
  apply store_lookup_other;
  [repeat first [rewrite length_insert | rewrite length_app]; simpl; lia |]
  : store.
#[export] Hint Extern 3 (_ <= _) =>
  repeat first [rewrite length_insert | rewrite length_app]; simpl; lia
  : store.

(** ** One round of the merge, on the store *)

Lemma eq_cell_bool k (l : Series) :
  forallb is_bool_or_null (map (eq_cell k) l) = true.
Proof. induction l as [|[] l IH]; simpl; auto. Qed.

Lemma ne_cell_bool k (l : Series) :
  forallb is_bool_or_null (map (ne_cell k) l) = true.
Proof. induction l as [|[] l IH]; simpl; auto. Qed.

(** The steps of the round up to the test of [tmp_dataframe.empty]. *)
Ltac round_prefix :=
  eapply run_bind; [by eapply run_getitem|];
  eapply run_bind; [by eapply run_str_len|];
  eapply run_bind; [by eapply run_setitem|];
  eapply run_bind; [eapply run_getitem; [eauto with store | eassumption]|];
  eapply run_bind;
    [eapply run_getitem_mask;
       [eauto with store | apply eq_cell_bool | eassumption]|];
  eapply run_bind; [eapply run_getitem; [eauto with store | eassumption]|];
  eapply run_bind;
    [eapply run_getitem_mask;
       [eauto with store | apply ne_cell_bool | eassumption]|];
  eapply run_bind; [eapply run_empty; eauto with store|].

Lemma store_assign_new (h : list DataFrame) d d' rest :
  <[length h := d']> ((h ++ [d]) ++ rest) = h ++ [d'] ++ rest.
Proof.
  rewrite <- app_assoc. rewrite insert_app_r_alt by lia.
  by rewrite Nat.sub_diag.
Qed.

(** The store a round leaves: the frame it is given has its length column,
    and the objects of the round and the frame returned are new. *)
Lemma process_ip_field_store ip p h df s s2 :
  h !! p = Some df -> wf df ->
  columns df !! ip = Some s -> forallb is_str_or_null s = true ->
  columns df !! alt_name ip = Some s2 ->
  process_ip_field ip p h
  = (Return (length h + length (round_objects ip df)),
     <[p := with_len ip df]> h ++ round_objects ip df ++ [pass_frame ip df]).
Proof.
  intros Hp Hwf Hip Hstr Halt.
  pose proof (column_ip ip df s Hip) as Hcol.
  pose proof (zero_group_lookup_alt ip df s2 Halt) as [t Ht].
  pose proof (zero_group_wf ip df s Hwf Hip) as Hwft.
  unfold round_objects, pass_frame, recombined, overwritten, column.
  rewrite Ht. simpl.
  revert Ht Hwft. unfold zero_group, nonzero_group, with_len. rewrite Hcol.
  set (lens := map len_cell s).
  set (df1 := df_set (len_name ip) lens df).
  set (tmp := df_filter (map selects (map (eq_cell 0) lens)) df1).
  set (par := df_filter (map selects (map (ne_cell 0) lens)) df1).
  intros Ht Hwft.
  assert (Hlens : length lens = nrows df).
  { unfold lens. rewrite length_map. by apply Hwf in Hip. }
  assert (Hl1 : columns df1 !! len_name ip = Some lens).
  { unfold df1, df_set. simpl. by rewrite lookup_insert_eq. }
  assert (Ha1 : columns df1 !! alt_name ip = Some s2).
  { unfold df1, df_set. simpl.
    rewrite lookup_insert_ne; [done | apply len_name_alt_name]. }
  assert (Hn1 : nrows df1 = nrows df) by done.
  set (h1 := <[p := df1]> h).
  assert (Hh1 : h1 !! p = Some df1) by (unfold h1; eauto with store).
  assert (Hlen1 : length h1 = length h) by (unfold h1; apply length_insert).
  assert (Hlm0 : length (map (eq_cell 0) lens) = nrows df1).
  { by rewrite length_map. }
  assert (Hlm1 : length (map (ne_cell 0) lens) = nrows df1).
  { by rewrite length_map. }
  assert (Hl1' : is_Some (columns df1 !! len_name ip)) by eauto.
  assert (Ha1' : is_Some (columns df1 !! alt_name ip)) by eauto.
  assert (Hlt : p < length h1) by (by eapply lookup_lt_Some).
  assert (Hlp : is_Some (columns par !! len_name ip)).
  { unfold par. rewrite df_filter_lookup, Hl1. simpl. eauto. }
  assert (Hap : is_Some (columns par !! alt_name ip)).
  { unfold par. rewrite df_filter_lookup, Ha1. simpl. eauto. }
  assert (Hlt' : is_Some (columns (df_set ip t tmp) !! len_name ip)).
  { unfold df_set. cbn [columns].
    rewrite lookup_insert_ne by (by apply not_eq_sym, len_name_ne).
    unfold tmp. rewrite df_filter_lookup, Hl1. simpl. eauto. }
  assert (Hat' : is_Some (columns (df_set ip t tmp) !! alt_name ip)).
  { unfold df_set. cbn [columns].
    rewrite lookup_insert_ne by (by apply not_eq_sym, alt_name_ne).
    unfold tmp. rewrite df_filter_lookup, Ha1. simpl. eauto. }
  assert (Hlent : length t = nrows tmp) by (by apply Hwft in Ht).
  unfold process_ip_field.
  destruct (df_empty tmp) eqn:Etmp; [|destruct (df_empty par) eqn:Epar].
  - etransitivity.
    { round_prefix. fold (len_name ip) (alt_name ip).
      fold lens. fold df1. fold h1. fold tmp par. rewrite Etmp. simpl.
      eapply run_bind; [reflexivity|].
      eapply run_drop2; [eauto with store | done | done]. }
    f_equal.
    + f_equal. rewrite !length_app, Hlen1. simpl. lia.
    + by rewrite <- !app_assoc.
  - etransitivity.
    { round_prefix. fold (len_name ip) (alt_name ip).
      fold lens. fold df1. fold h1. fold tmp par. rewrite Etmp. simpl.
      eapply run_bind.
      { eapply run_bind; [eapply run_getitem; [eauto with store | exact Ht]|].
        eapply run_bind; [eapply run_setitem; [eauto with store | done]|].
        eapply run_bind; [eapply run_empty; eauto with store|].
        rewrite Epar. reflexivity. }
      eapply run_drop2; [eauto with store | done | done]. }
    rewrite store_assign_new. f_equal.
    + f_equal. rewrite !length_app, Hlen1. simpl. lia.
    + by rewrite <- !app_assoc.
  - etransitivity.
    { round_prefix. fold (len_name ip) (alt_name ip).
      fold lens. fold df1. fold h1. fold tmp par. rewrite Etmp. simpl.
      eapply run_bind.
      { eapply run_bind; [eapply run_getitem; [eauto with store | exact Ht]|].
        eapply run_bind; [eapply run_setitem; [eauto with store | done]|].
        eapply run_bind; [eapply run_empty; eauto with store|].
        rewrite Epar. simpl.
        eapply run_concat2; eauto with store. }
      eapply run_drop2; [eauto with store | |].
      * unfold concat2. cbn [columns]. rewrite lookup_merge.
        destruct Hlp as [? ->], Hlt' as [? ->]. simpl. eauto.
      * unfold concat2. cbn [columns]. rewrite lookup_merge.
        destruct Hap as [? ->], Hat' as [? ->]. simpl. eauto. }
    rewrite store_assign_new. f_equal.
    + f_equal. rewrite !length_app, Hlen1. simpl. lia.
    + by rewrite <- !app_assoc.
Qed.

Lemma round_store_lookup (h : list DataFrame) p d objs out :
  (<[p := d]> h ++ objs ++ [out]) !! (length h + length objs) = Some out.
Proof.
  rewrite app_assoc.
  replace (length h + length objs) with (length (<[p := d]> h ++ objs))
    by (by rewrite length_app, length_insert).
  apply store_lookup_new.
Qed.

Lemma process_ip_field_run ip p h df s s2 :
  h !! p = Some df -> wf df ->
  columns df !! ip = Some s -> forallb is_str_or_null s = true ->
  columns df !! alt_name ip = Some s2 ->
  exists r' h',
    process_ip_field ip p h = (Return r', h')
    /\ h' !! r' = Some (pass_frame ip df)
    /\ h' !! p = Some (with_len ip df)
    /\ length h <= r'
    /\ forall h0, h0 `prefix_of` h -> length h0 <= p -> h0 `prefix_of` h'.
Proof.
  intros Hp Hwf Hip Hstr Halt.
  pose proof (lookup_lt_Some _ _ _ Hp) as Hlt.
  eexists _, _. split; [by eapply process_ip_field_store|].
  split; [|split; [|split]].
  - apply round_store_lookup.
  - apply lookup_app_l_Some. eauto with store.
  - lia.
  - intros h0 Hpre Hlen0. apply prefix_app_r. eauto with store.
Qed.

(** ** The merge on rows *)

Lemma lookup_merge_row_other ip c r :
  c <> ip -> c <> len_name ip -> c <> alt_name ip ->
  merge_row ip r !! c = r !! c.
Proof.
  intros H1 H2 H3. unfold merge_row.
  rewrite !lookup_delete_ne by done.
  destruct (decide (cell r ip = Str ""));
    rewrite ?lookup_insert_ne by done; done.
Qed.

Lemma lookup_merge_row_primary ip r :
  is_Some (r !! ip) ->
  merge_row ip r !! ip = Some (fallback (cell r ip) (cell r (alt_name ip))).
Proof.
  intros [v Hv]. unfold merge_row, fallback.
  pose proof (alt_name_ne ip). pose proof (len_name_ne ip).
  pose proof (len_name_alt_name ip).
  rewrite !lookup_delete_ne by done.
  destruct (decide (cell r ip = Str "")).
  - rewrite lookup_insert_eq. f_equal. unfold cell.
    by rewrite lookup_insert_ne.
  - rewrite lookup_insert_ne by done. unfold cell. by rewrite Hv.
Qed.

Lemma lookup_merge_row_dropped ip r :
  merge_row ip r !! alt_name ip = None /\ merge_row ip r !! len_name ip = None.
Proof.
  unfold merge_row. split.
  - by rewrite lookup_delete_eq.
  - rewrite lookup_delete_ne by apply not_eq_sym, len_name_alt_name.
    by rewrite lookup_delete_eq.
Qed.

Lemma regroup_perm ip (l : list (nat * gmap string value)) :
  Forall (fun lr => is_str (cell lr.2 ip) = true) l -> regroup ip l ≡ₚ l.
Proof.
  unfold regroup. induction 1 as [|[lbl r] l Hx Hl IH]; [done|].
  rewrite !filter_cons.
  destruct (decide (has_text ip (lbl, r))) as [Ht|Ht],
    (decide (has_empty ip (lbl, r))) as [He|He];
    unfold has_text, has_empty in *; simpl in *.
  - rewrite He in Ht. discriminate.
  - by constructor.
  - rewrite <- Permutation_middle. by constructor.
  - destruct (cell r ip) as [|[|a t]|n|b]; simpl in *; try discriminate.
    + by destruct He.
    + by destruct Ht.
Qed.

Lemma regroup_elem_of ip (l : list (nat * gmap string value)) lr :
  lr ∈ regroup ip l -> lr ∈ l.
Proof.
  unfold regroup. rewrite elem_of_app, !list_elem_of_filter. tauto.
Qed.

(** ** Columns and rows *)

Lemma column_of_rows df c s :
  wf df -> columns df !! c = Some s ->
  s = map (fun lr => cell lr.2 c) (rows df).
Proof. intros Hwf Hc. symmetry. by apply rows_of_column. Qed.

Lemma rows_str_column df c :
  wf df -> has_str_column df c ->
  Forall (fun lr => is_str (cell lr.2 c) = true) (rows df).
Proof.
  intros Hwf (s & Hc & Hs). rewrite (column_of_rows df c s Hwf Hc) in Hs.
  rewrite forallb_forall in Hs. apply Forall_forall. intros lr Hlr.
  apply Hs, in_map_iff. exists lr. split; [done|]. by apply list_elem_of_In.
Qed.

Lemma str_column_rows df c :
  wf df -> has_column df c ->
  Forall (fun lr => is_str (cell lr.2 c) = true) (rows df) ->
  has_str_column df c.
Proof.
  intros Hwf [s Hc] Hall. exists s. split; [done|].
  rewrite (column_of_rows df c s Hwf Hc). apply forallb_forall.
  intros v Hv. apply in_map_iff in Hv as (lr & <- & Hlr).
  rewrite Forall_forall in Hall. apply Hall. by apply list_elem_of_In.
Qed.

Lemma str_is_text_column df c : has_str_column df c -> has_text_column df c.
Proof.
  intros (s & Hc & Hs). exists s. split; [done|].
  rewrite forallb_forall in *. intros v Hv. apply Hs in Hv. by destruct v.
Qed.

Lemma difference_twice_names (D : gset string) (a b c d : string) :
  D ∖ {[a; b]} ∖ {[c; d]} = D ∖ {[b; d; a; c]}.
Proof. set_solver. Qed.

(** ** The frame after the first round *)

Section first_round.
Context (df : DataFrame).
Hypothesis Hready : merge_ready df.

Local Abbreviation X := (pass_frame "src_ip" df).

Lemma first_round_wf : wf X.
Proof.
  destruct Hready as (Hwf & (s & Hs & _) & [s2 Hs2] & _).
  by eapply pass_frame_wf.
Qed.

Lemma first_round_rows :
  rows X = map (on_row (merge_row "src_ip")) (regroup "src_ip" (rows df)).
Proof.
  destruct Hready as (Hwf & (s & Hs & _) & [s2 Hs2] & _).
  by eapply pass_frame_rows.
Qed.

Lemma first_round_dom :
  dom (columns X) = dom (columns df) ∖ {["src_ip_len"; "src_ip2"]}.
Proof.
  destruct Hready as (Hwf & (s & Hs & _) & [s2 Hs2] & _).
  by erewrite pass_frame_dom.
Qed.

Lemma first_round_alt : has_column X "dest_ip2".
Proof.
  destruct Hready as (Hwf & _ & _ & _ & Hd2).
  apply elem_of_dom. rewrite first_round_dom.
  apply elem_of_dom in Hd2. set_solver.
Qed.

Lemma first_round_primary : has_str_column X "dest_ip".
Proof.
  pose proof Hready as (Hwf & Hs & _ & Hd & _).
  apply str_column_rows; [apply first_round_wf | |].
  - apply elem_of_dom. rewrite first_round_dom.
    destruct Hd as (s & Hd & _). assert ("dest_ip" ∈ dom (columns df)).
    { apply elem_of_dom. eauto. }
    set_solver.
  - rewrite first_round_rows. apply Forall_forall. intros lr Hlr.
    apply list_elem_of_fmap in Hlr as ([l r] & -> & Hlr).
    apply regroup_elem_of in Hlr.
    pose proof (rows_str_column df "dest_ip" Hwf Hd) as Hall.
    rewrite Forall_forall in Hall. apply Hall in Hlr. simpl in *.
    unfold cell in *. by rewrite lookup_merge_row_other.
Qed.

Lemma merged_wf : wf (merged df).
Proof.
  destruct first_round_primary as (s & Hs & _).
  destruct first_round_alt as [s2 Hs2].
  eapply pass_frame_wf; eauto using first_round_wf.
Qed.

Lemma merged_rows :
  rows (merged df)
  = map (on_row (merge_row "dest_ip"))
      (regroup "dest_ip"
         (map (on_row (merge_row "src_ip")) (regroup "src_ip" (rows df)))).
Proof.
  destruct first_round_primary as (s & Hs & _).
  destruct first_round_alt as [s2 Hs2].
  unfold merged. erewrite pass_frame_rows; eauto using first_round_wf.
  by rewrite first_round_rows.
Qed.

Lemma merged_dom :
  dom (columns (merged df))
  = dom (columns df) ∖ {["src_ip2"; "dest_ip2"; "src_ip_len"; "dest_ip_len"]}.
Proof.
  destruct first_round_primary as (s & Hs & _).
  destruct first_round_alt as [s2 Hs2].
  unfold merged. erewrite pass_frame_dom; eauto using first_round_wf.
  rewrite first_round_dom. apply difference_twice_names.
Qed.

Lemma merged_rows_perm :
  rows (merged df) ≡ₚ map (on_row merge_rows) (rows df).
Proof.
  pose proof Hready as (Hwf & Hs & _ & Hd & _).
  rewrite merged_rows.
  rewrite regroup_perm.
  - rewrite regroup_perm by (by apply rows_str_column).
    rewrite map_map. done.
  - pose proof (rows_str_column _ _ first_round_wf first_round_primary) as H.
    by rewrite first_round_rows in H.
Qed.
End first_round.

(** ** Both rounds, on the store *)

Lemma process_ip_fields_run self p h df :
  h !! p = Some df -> merge_ready df ->
  exists r' h',
    _process_ip_fields self p h = (Return r', h')
    /\ h' !! r' = Some (merged df)
    /\ length h <= r'
    /\ forall h0, h0 `prefix_of` h -> length h0 <= p -> h0 `prefix_of` h'.
Proof.
  intros Hp Hready.
  pose proof Hready as (Hwf & Hs & [s2 Hs2] & _).
  apply str_is_text_column in Hs as (s & Hs & Hstr).
  destruct (process_ip_field_run "src_ip" p h df s s2 Hp Hwf Hs Hstr Hs2)
    as (r1 & h1 & Hrun1 & Hr1 & _ & Hge1 & Hpre1).
  pose proof (first_round_primary df Hready) as Hd.
  apply str_is_text_column in Hd as (d & Hd & Hdstr).
  destruct (first_round_alt df Hready) as [d2 Hd2].
  destruct (process_ip_field_run "dest_ip" r1 h1 _ d d2 Hr1
              (first_round_wf df Hready) Hd Hdstr Hd2)
    as (r2 & h2 & Hrun2 & Hr2 & _ & Hge2 & Hpre2).
  exists r2, h2. split; [|split; [|split]].
  - unfold _process_ip_fields. simpl.
    eapply run_bind; [exact Hrun1|].
    eapply run_bind; [exact Hrun2|]. done.
  - exact Hr2.
  - apply lookup_lt_Some in Hr1. lia.
  - intros h0 Hpre Hlen. apply Hpre2; [by apply Hpre1|].
    apply lookup_lt_Some in Hp. lia.
Qed.

(** ** Cleaning and extraction *)

Lemma clean_length texts : length (clean texts) = length texts.
Proof. unfold clean. by rewrite length_map. Qed.

Lemma clean_is_text texts :
  forallb is_str_or_null texts = true ->
  forallb is_str_or_null (clean texts) = true.
Proof.
  unfold clean. induction texts as [|v texts IH]; simpl; [done|].
  rewrite !andb_true_iff. intros [Hv Hrest]. split; [by destruct v | auto].
Qed.

Lemma run_str_replace_clean texts h :
  forallb is_str_or_null texts = true ->
  str_replace texts cleaning_pattern "" regex_default h
  = (Return (clean texts), h).
Proof. intros Hs. unfold str_replace. by rewrite Hs. Qed.

Lemma prefix_single a c s :
  String.prefix (String a EmptyString) (String c s) = bool_decide (a = c).
Proof.
  cbn [String.prefix]. destruct (ascii_dec a c) as [->|Hne].
  - rewrite bool_decide_true by done. by destruct s.
  - by rewrite bool_decide_false.
Qed.

Lemma replace_all_backslash s :
  replace_all (String backslash EmptyString) "" s = remove_backslashes s.
Proof.
  unfold replace_all. induction s as [|c s IH]; [done|].
  cbn [replace_from remove_backslashes]. rewrite prefix_single.
  destruct (Ascii.eqb_spec c backslash) as [->|Hne].
  - rewrite bool_decide_true by done. simpl. exact IH.
  - rewrite bool_decide_false by congruence. by rewrite IH.
Qed.

Lemma extracted_lookup pat idx texts g :
  g ∈ groups pat ->
  columns (extracted pat idx texts) !! g
  = Some (map (fun v => fill_cell "" (capture_cell pat g v)) (clean texts)).
Proof.
  intros Hg. unfold extracted, df_fillna, extract_frame. simpl.
  rewrite lookup_fmap, map_lookup_imap, lookup_gset_to_gmap.
  rewrite option_guard_True by done. simpl. by rewrite map_map.
Qed.

Lemma extracted_dom pat idx texts :
  dom (columns (extracted pat idx texts)) = groups pat.
Proof.
  unfold extracted, df_fillna, extract_frame. simpl.
  rewrite dom_fmap_L. apply set_eq. intros g.
  rewrite elem_of_dom, map_lookup_imap, lookup_gset_to_gmap.
  destruct (decide (g ∈ groups pat)).
  - rewrite option_guard_True by done. simpl. split; eauto.
  - rewrite option_guard_False by done. simpl. split; [by intros []|done].
Qed.

Lemma extracted_str pat idx texts g :
  g ∈ groups pat -> has_str_column (extracted pat idx texts) g.
Proof.
  intros Hg. eexists. split; [by apply extracted_lookup|].
  apply forallb_forall. intros v Hv. apply in_map_iff in Hv as (x & <- & _).
  unfold fill_cell, capture_cell. destruct x; try done.
  destruct (pmatch pat s); [|done]. by destruct (_ !! g).
Qed.

Lemma extracted_ready pat idx texts :
  length idx = length texts -> ip_groups ⊆ groups pat ->
  merge_ready (extracted pat idx texts).
Proof.
  intros Hlen Hsub. unfold merge_ready, has_column.
  assert (forall g, g ∈ ip_groups -> g ∈ groups pat) as Hin by set_solver.
  split; [by apply wf_extracted|].
  repeat split;
    first [ apply extracted_str | rewrite extracted_lookup; [eauto|] ];
    apply Hin; unfold ip_groups; set_solver.
Qed.

Lemma extracted_rows pat idx texts :
  length idx = length texts ->
  rows (extracted pat idx texts)
  = map (fun lv => (lv.1, extract_row pat (clean_cell lv.2))) (zip idx texts).
Proof.
  intros Hlen.
  assert (Hcols : columns (extracted pat idx texts)
    = map_imap (fun g _ =>
                  Some (map (fun v => fill_cell "" (capture_cell pat g v))
                          (clean texts)))
        (gset_to_gmap () (groups pat))).
  { unfold extracted, df_fillna, extract_frame. simpl. apply map_eq. intros g.
    rewrite lookup_fmap, !map_lookup_imap.
    destruct (gset_to_gmap () (groups pat) !! g); simpl; [|done].
    by rewrite map_map. }
  unfold rows. rewrite Hcols.
  change (index (extracted pat idx texts)) with idx.
  rewrite (rows_of_imap (fun g v => fill_cell "" (capture_cell pat g v)))
    by (by rewrite clean_length).
  unfold clean. clear Hcols. revert texts Hlen.
  induction idx as [|l idx IH]; intros [|v texts] Hlen; simplify_eq/=; [done|].
  f_equal. by apply IH.
Qed.

(** ** [parse], on the store *)

Lemma run_parse_raw_event self pat r raw_column d texts h :
  event_regex self !! EVENT_NAME = Some pat ->
  h !! r = Some d -> columns d !! raw_column = Some texts ->
  forallb is_str_or_null texts = true ->
  parse_raw_event self r raw_column EVENT_NAME h
  = (Return (length h), h ++ [extract_frame pat (index d) texts]).
Proof.
  intros Hev Hr Hc Hs. unfold parse_raw_event. rewrite Hev.
  eapply run_bind; [by apply run_deref|].
  eapply run_bind; [by eapply run_getitem|].
  by rewrite Hs.
Qed.

Lemma parse_run self pat h r raw_column df texts :
  parse_ready self pat h r raw_column df texts ->
  exists r' h',
    parse self r raw_column h = (Return r', h')
    /\ h' !! r' = Some (parsed pat (index df) texts)
    /\ length h <= r'
    /\ <[r := df_set raw_column (clean texts) df]> h `prefix_of` h'.
Proof.
  intros (Hev & Hsub & Hr & Hwf & Hc & Hs).
  assert (Hlen : length (index df) = length texts).
  { symmetry. by apply Hwf in Hc. }
  set (dfc := df_set raw_column (clean texts) df).
  set (h1 := <[r := dfc]> h).
  assert (Hr1 : h1 !! r = Some dfc) by (unfold h1; eauto with store).
  assert (Hlt : r < length h) by (by eapply lookup_lt_Some).
  set (ext := extract_frame pat (index df) (clean texts)).
  set (pre := extracted pat (index df) texts).
  set (h3 := (h1 ++ [ext]) ++ [pre]).
  assert (Hpre : h3 !! S (length h1) = Some pre).
  { unfold h3. replace (S (length h1)) with (length (h1 ++ [ext])).
    - apply store_lookup_new.
    - rewrite length_app. simpl. lia. }
  destruct (process_ip_fields_run self _ h3 pre Hpre
              (extracted_ready pat _ texts Hlen Hsub))
    as (r' & h' & Hrun & Hres & Hge & Hprefix).
  exists r', h'. split; [|split; [|split]].
  - unfold parse.
    eapply run_bind; [by eapply run_getitem|].
    eapply run_bind; [by apply run_str_replace_clean|].
    eapply run_bind.
    { eapply run_setitem; [done|]. rewrite clean_length. by apply Hwf in Hc. }
    fold dfc h1.
    eapply run_bind.
    { eapply run_parse_raw_event; [done | done | |].
      - unfold dfc, df_set. simpl. by rewrite lookup_insert_eq.
      - by apply clean_is_text. }
    eapply run_bind; [eapply run_fillna; eauto with store|].
    eapply run_bind; [|reflexivity].
    replace (length (h1 ++ [extract_frame pat (index dfc) (clean texts)]))
      with (S (length h1)) by (rewrite length_app; simpl; lia).
    exact Hrun.
  - exact Hres.
  - unfold h3, h1 in Hge. revert Hge.
    repeat first [rewrite length_insert | rewrite length_app]. simpl. lia.
  - apply Hprefix.
    + unfold h3. rewrite <- app_assoc. by apply prefix_app_r.
    + lia.
Qed.

(** ** The frame [parse] returns, by rows *)

Lemma parsed_rows_perm pat idx texts :
  length idx = length texts -> ip_groups ⊆ groups pat ->
  rows (parsed pat idx texts)
  ≡ₚ map (fun lv => (lv.1, parsed_row pat lv.2)) (zip idx texts).
Proof.
  intros Hlen Hsub. unfold parsed.
  rewrite (merged_rows_perm _ (extracted_ready pat idx texts Hlen Hsub)).
  rewrite extracted_rows by done. by rewrite map_map.
Qed.

Lemma parsed_index_perm pat idx texts :
  length idx = length texts -> ip_groups ⊆ groups pat ->
  index (parsed pat idx texts) ≡ₚ idx.
Proof.
  intros Hlen Hsub. rewrite <- rows_labels.
  etransitivity.
  { apply Permutation_map, (parsed_rows_perm pat idx texts Hlen Hsub). }
  rewrite map_map. simpl.
  change (map (fun x : nat * value => x.1) (zip idx texts))
    with ((zip idx texts).*1).
  rewrite fst_zip; [done | lia].
Qed.

Lemma round_partition ip df :
  wf df -> has_str_column df ip -> has_column df (alt_name ip) ->
  nrows (zero_group ip df) + nrows (nonzero_group ip df) = nrows df
  /\ nrows (pass_frame ip df) = nrows df.
Proof.
  intros Hwf Hs [s2 Hs2].
  pose proof (rows_str_column df ip Hwf Hs) as Hall.
  destruct Hs as (s & Hs & _).
  rewrite <- !rows_length.
  rewrite (zero_group_rows ip df s), (nonzero_group_rows ip df s) by done.
  rewrite (pass_frame_rows ip df s s2) by done.
  rewrite !length_map. pose proof (regroup_perm ip _ Hall) as Hperm.
  apply Permutation_length in Hperm. unfold regroup in *.
  rewrite length_app in *. lia.
Qed.

(** ** The claims *)

(** C1. For every input dataset, the dataset [parse] returns has as many rows
    as the input, and its row labels are those of the input, each once: no
    row is dropped or duplicated. In both rounds of the merge the two groups
    together have the rows of the frame that is split, and the frame the
    round returns has as many. *)
Theorem parse_preserves_rows self pat h r raw_column df texts :
  parse_ready self pat h r raw_column df texts ->
  exists r' h' out,
    parse self r raw_column h = (Return r', h')
    /\ h' !! r' = Some out
    /\ nrows out = nrows df
    /\ index out ≡ₚ index df
    /\ (let pre := extracted pat (index df) texts in
        nrows pre = nrows df
        /\ nrows (zero_group "src_ip" pre) + nrows (nonzero_group "src_ip" pre)
           = nrows pre
        /\ nrows (pass_frame "src_ip" pre) = nrows pre
        /\ nrows (zero_group "dest_ip" (pass_frame "src_ip" pre))
           + nrows (nonzero_group "dest_ip" (pass_frame "src_ip" pre))
           = nrows (pass_frame "src_ip" pre)
        /\ out = pass_frame "dest_ip" (pass_frame "src_ip" pre)).
Proof.
  intros Hready.
  destruct (parse_run _ _ _ _ _ _ _ Hready) as (r' & h' & Hrun & Hout & _).
  destruct Hready as (Hev & Hsub & Hr & Hwf & Hc & Hs).
  assert (Hlen : length (index df) = length texts).
  { symmetry. by apply Hwf in Hc. }
  pose proof (parsed_index_perm pat _ texts Hlen Hsub) as Hperm.
  pose proof (extracted_ready pat _ texts Hlen Hsub) as Hm.
  exists r', h', (parsed pat (index df) texts).
  split; [done|]. split; [done|].
  split; [by apply Permutation_length in Hperm|]. split; [done|].
  cbv zeta. split; [reflexivity|].
  pose proof Hm as (Hwfp & Hs1 & Ha1 & _).
  destruct (round_partition "src_ip" _ Hwfp Hs1 Ha1) as [H1 H2].
  destruct (round_partition "dest_ip" _ (first_round_wf _ Hm)
              (first_round_primary _ Hm) (first_round_alt _ Hm)) as [H3 _].
  split; [exact H1|]. split; [exact H2|]. split; [exact H3|]. reflexivity.
Qed.

(** Closed side conditions on the sample inputs are settled by evaluation. *)
Ltac by_evaluation :=
  repeat match goal with
         | |- _ /\ _ => split
         | |- wf _ => apply (bool_decide_unpack _); vm_compute; exact I
         | |- cols_wf _ _ => apply (bool_decide_unpack _); vm_compute; exact I
         | |- _ ⊆ _ => apply (bool_decide_unpack _); vm_compute; exact I
         | |- has_column _ _ => eexists; vm_compute; reflexivity
         | |- has_str_column _ _ =>
             eexists; split; vm_compute; reflexivity
         | |- has_text_column _ _ =>
             eexists; split; vm_compute; reflexivity
         | |- _ = _ => vm_compute; reflexivity
         end.

Lemma parse_preserves_rows_witness :
  exists r' h' out,
    parse notable_parser 0 "raw" [five_frame] = (Return r', h')
    /\ h' !! r' = Some out
    /\ nrows out = nrows five_frame
    /\ index out ≡ₚ index five_frame
    /\ (let pre := extracted notable_pattern (index five_frame)
                     (map Str five_texts) in
        nrows pre = nrows five_frame
        /\ nrows (zero_group "src_ip" pre) + nrows (nonzero_group "src_ip" pre)
           = nrows pre
        /\ nrows (pass_frame "src_ip" pre) = nrows pre
        /\ nrows (zero_group "dest_ip" (pass_frame "src_ip" pre))
           + nrows (nonzero_group "dest_ip" (pass_frame "src_ip" pre))
           = nrows (pass_frame "src_ip" pre)
        /\ out = pass_frame "dest_ip" (pass_frame "src_ip" pre)).
Proof.
  apply (parse_preserves_rows notable_parser notable_pattern [five_frame] 0
           "raw" five_frame (map Str five_texts)).
  unfold parse_ready. by_evaluation.
Defined.

(** ** Cells of the rows of a frame *)

Lemma rows_of_lookup c s idx cols :
  cols_wf (length idx) cols ->
  cols !! c = Some s ->
  map (fun lr => lr.2 !! c) (rows_of idx cols) = map Some s.
Proof.
  revert cols s. induction idx as [|l idx IH]; intros cols s Hwf Hc; simpl.
  { apply Hwf in Hc. by destruct s. }
  destruct (cols_wf_cons _ _ _ _ Hwf Hc) as (x & s' & ->).
  rewrite (IH (tail <$> cols) s').
  - by rewrite lookup_omap, Hc.
  - by apply cols_wf_tail.
  - by rewrite lookup_fmap, Hc.
Qed.

Lemma rows_has_column df c :
  wf df -> has_column df c -> Forall (fun lr => is_Some (lr.2 !! c)) (rows df).
Proof.
  intros Hwf [s Hc]. apply Forall_forall. intros lr Hlr.
  pose proof (rows_of_lookup c s (index df) (columns df) Hwf Hc) as Heq.
  assert (Hin : lr.2 !! c ∈ map (fun lr => lr.2 !! c) (rows df)).
  { apply list_elem_of_fmap. eauto. }
  unfold rows in Hin. rewrite Heq in Hin.
  apply list_elem_of_fmap in Hin as (v & -> & _). eauto.
Qed.

Lemma lookup_cell (r : gmap string value) c :
  is_Some (r !! c) -> r !! c = Some (cell r c).
Proof. intros [v Hv]. unfold cell. by rewrite Hv. Qed.

Lemma merge_row_text ip lr c :
  has_text ip lr -> c <> len_name ip -> c <> alt_name ip ->
  merge_row ip lr.2 !! c = lr.2 !! c.
Proof.
  intros Ht H1 H2. unfold merge_row. rewrite !lookup_delete_ne by done.
  rewrite decide_False.
  - by rewrite lookup_insert_ne.
  - intros He. unfold has_text in Ht. by rewrite He in Ht.
Qed.

Lemma regroup_all_text ip (l : list (nat * gmap string value)) :
  Forall (has_text ip) l -> regroup ip l = l.
Proof.
  unfold regroup. induction 1 as [|lr l Hx Hl IH]; [done|].
  rewrite !filter_cons. rewrite decide_True by done.
  rewrite decide_False.
  - simpl. by rewrite IH.
  - intros He. unfold has_text, has_empty in *. by rewrite He in Hx.
Qed.

Lemma frame_lookup_rows df c :
  wf df -> c ∈ dom (columns df) ->
  columns df !! c = Some (map (fun lr => cell lr.2 c) (rows df)).
Proof.
  intros Hwf Hc. apply elem_of_dom in Hc as [s Hs]. rewrite Hs. f_equal.
  by apply column_of_rows.
Qed.

(** The names the two rounds work with are distinct. *)
Ltac names_differ :=
  let H := fresh in intros H; vm_compute in H; discriminate H.

Lemma merge_rows_src r :
  is_Some (r !! "src_ip") ->
  merge_rows r !! "src_ip"
  = Some (fallback (cell r "src_ip") (cell r "src_ip2")).
Proof.
  intros Hr. unfold merge_rows.
  rewrite lookup_merge_row_other by names_differ.
  by rewrite lookup_merge_row_primary.
Qed.

Lemma merge_rows_dest r :
  is_Some (r !! "dest_ip") ->
  merge_rows r !! "dest_ip"
  = Some (fallback (cell r "dest_ip") (cell r "dest_ip2")).
Proof.
  intros Hr. unfold merge_rows.
  rewrite lookup_merge_row_primary.
  - unfold cell. by rewrite !lookup_merge_row_other by names_differ.
  - by rewrite lookup_merge_row_other by names_differ.
Qed.

Lemma merge_rows_other r c :
  c ∉ ({["src_ip"; "dest_ip"; "src_ip2"; "dest_ip2"; "src_ip_len";
         "dest_ip_len"]} : gset string) ->
  merge_rows r !! c = r !! c.
Proof.
  intros Hc. unfold merge_rows.
  rewrite !lookup_merge_row_other; [done | | | | | |];
    intros ->; apply Hc; vm_compute; set_solver.
Qed.

(** C2. [_process_ip_fields] is given the frame that extraction and null
    filling leave. The rows of the frame it returns are the rows of that
    frame, each merged: where the primary field ([src_ip], [dest_ip]) is the
    empty string, the final primary field is the value the alternate field
    ([src_ip2], [dest_ip2]) had before the merge, as it is (empty when the
    alternate is empty); where the primary field is not empty, it is left
    as it was. *)
Theorem fallback_merge self h p df :
  h !! p = Some df -> merge_ready df ->
  exists r' h' out,
    _process_ip_fields self p h = (Return r', h')
    /\ h' !! r' = Some out
    /\ rows out ≡ₚ map (on_row merge_rows) (rows df)
    /\ Forall (fun lr =>
         let r := lr.2 in
         (cell r "src_ip" = Str "" ->
            merge_rows r !! "src_ip" = r !! "src_ip2")
         /\ (cell r "src_ip" <> Str "" ->
            merge_rows r !! "src_ip" = r !! "src_ip")
         /\ (cell r "dest_ip" = Str "" ->
            merge_rows r !! "dest_ip" = r !! "dest_ip2")
         /\ (cell r "dest_ip" <> Str "" ->
            merge_rows r !! "dest_ip" = r !! "dest_ip")) (rows df).
Proof.
  intros Hp Hready.
  destruct (process_ip_fields_run self p h df Hp Hready)
    as (r' & h' & Hrun & Hout & _).
  exists r', h', (merged df). split; [done|]. split; [done|].
  split; [by apply merged_rows_perm|].
  destruct Hready as (Hwf & Hs & Hs2 & Hd & Hd2).
  pose proof (rows_has_column df "src_ip2" Hwf Hs2) as A2.
  pose proof (rows_has_column df "dest_ip2" Hwf Hd2) as B2.
  assert (A1 : Forall (fun lr => is_Some (lr.2 !! "src_ip")) (rows df)).
  { apply rows_has_column; [done|]. destruct Hs as (s & Hs & _). by exists s. }
  assert (B1 : Forall (fun lr => is_Some (lr.2 !! "dest_ip")) (rows df)).
  { apply rows_has_column; [done|]. destruct Hd as (s & Hd & _). by exists s. }
  rewrite Forall_forall in *. intros lr Hlr. cbv zeta.
  specialize (A1 lr Hlr). specialize (A2 lr Hlr).
  specialize (B1 lr Hlr). specialize (B2 lr Hlr).
  rewrite (merge_rows_src _ A1), (merge_rows_dest _ B1). unfold fallback.
  rewrite (lookup_cell _ _ A1), (lookup_cell _ _ A2), (lookup_cell _ _ B1),
    (lookup_cell _ _ B2).
  repeat split; intros H.
  - by rewrite decide_True.
  - by rewrite decide_False.
  - by rewrite decide_True.
  - by rewrite decide_False.
Qed.

Lemma fallback_merge_witness :
  exists r' h' out,
    _process_ip_fields notable_parser 0 [merge_frame] = (Return r', h')
    /\ h' !! r' = Some out
    /\ rows out ≡ₚ map (on_row merge_rows) (rows merge_frame)
    /\ Forall (fun lr =>
         let r := lr.2 in
         (cell r "src_ip" = Str "" ->
            merge_rows r !! "src_ip" = r !! "src_ip2")
         /\ (cell r "src_ip" <> Str "" ->
            merge_rows r !! "src_ip" = r !! "src_ip")
         /\ (cell r "dest_ip" = Str "" ->
            merge_rows r !! "dest_ip" = r !! "dest_ip2")
         /\ (cell r "dest_ip" <> Str "" ->
            merge_rows r !! "dest_ip" = r !! "dest_ip")) (rows merge_frame).
Proof.
  apply (fallback_merge notable_parser [merge_frame] 0 merge_frame).
  - reflexivity.
  - unfold merge_ready. by_evaluation.
Defined.

(** ** The row [parse] makes of one text *)

Lemma extract_row_lookup pat v g :
  extract_row pat v !! g
  = if decide (g ∈ groups pat)
    then Some (fill_cell "" (capture_cell pat g v)) else None.
Proof.
  unfold extract_row. rewrite map_lookup_imap, lookup_gset_to_gmap.
  destruct (decide (g ∈ groups pat)).
  - by rewrite option_guard_True.
  - by rewrite option_guard_False.
Qed.

Lemma filled_capture_str pat g v :
  exists t, fill_cell "" (capture_cell pat g v) = Str t.
Proof.
  unfold fill_cell, capture_cell. destruct v; eauto.
  destruct (pmatch pat s); eauto. destruct (_ !! g); eauto.
Qed.

Lemma filled_capture_no_match pat g v :
  no_match pat v ->
  fill_cell "" (capture_cell pat g (clean_cell v)) = Str "".
Proof.
  unfold no_match, fill_cell, capture_cell.
  destruct (clean_cell v); try done. by intros ->.
Qed.

Lemma fallback_str a b :
  (exists t, a = Str t) -> (exists t, b = Str t) ->
  exists t, fallback a b = Str t.
Proof. intros [t ->] [u ->]. unfold fallback. case_decide; eauto. Qed.

(** Membership in the small sets of column names, by cases. *)
Ltac solve_names :=
  unfold output_columns, dropped_columns in *;
  rewrite ?elem_of_difference, ?elem_of_union, ?elem_of_singleton in *;
  intuition congruence.

Lemma ip_groups_spec g :
  g ∈ ip_groups
  <-> g = "src_ip" \/ g = "src_ip2" \/ g = "dest_ip" \/ g = "dest_ip2".
Proof.
  unfold ip_groups. rewrite !elem_of_union, !elem_of_singleton. tauto.
Qed.

Lemma parsed_row_lookup pat v c :
  ip_groups ⊆ groups pat ->
  let e := extract_row pat (clean_cell v) in
  parsed_row pat v !! c
  = if decide (c ∈ output_columns (groups pat)) then
      if decide (c = "src_ip")
      then Some (fallback (cell e "src_ip") (cell e "src_ip2"))
      else if decide (c = "dest_ip")
      then Some (fallback (cell e "dest_ip") (cell e "dest_ip2"))
      else e !! c
    else None.
Proof.
  intros Hsub e. unfold parsed_row. fold e. fold (merge_rows e).
  assert (Hin : forall g, g ∈ ip_groups -> is_Some (e !! g)).
  { intros g Hg. unfold e. rewrite extract_row_lookup.
    rewrite decide_True by (by apply Hsub). eauto. }
  destruct (decide (c = "src_ip")) as [->|Hsrc].
  { rewrite decide_True.
    - apply merge_rows_src, Hin, ip_groups_spec. auto.
    - unfold output_columns. apply elem_of_difference. split.
      + apply Hsub, ip_groups_spec. auto.
      + solve_names. }
  destruct (decide (c = "dest_ip")) as [->|Hdest].
  { rewrite decide_True.
    - apply merge_rows_dest, Hin, ip_groups_spec. auto.
    - unfold output_columns. apply elem_of_difference. split.
      + apply Hsub, ip_groups_spec. auto 6.
      + solve_names. }
  destruct (decide (c ∈ dropped_columns)) as [Hdrop|Hkeep].
  { rewrite decide_False by solve_names.
    unfold merge_rows.
    unfold dropped_columns in Hdrop.
    rewrite !elem_of_union, !elem_of_singleton in Hdrop.
    destruct Hdrop as [[[-> | ->] | ->] | ->].
    - rewrite lookup_merge_row_other by names_differ.
      apply (lookup_merge_row_dropped "src_ip").
    - apply (lookup_merge_row_dropped "dest_ip").
    - rewrite lookup_merge_row_other by names_differ.
      apply (lookup_merge_row_dropped "src_ip").
    - apply (lookup_merge_row_dropped "dest_ip"). }
  rewrite merge_rows_other by solve_names.
  unfold e at 1. rewrite extract_row_lookup.
  destruct (decide (c ∈ groups pat)).
  - rewrite decide_True by solve_names.
    unfold e. rewrite extract_row_lookup. by rewrite decide_True.
  - by rewrite decide_False by solve_names.
Qed.

Lemma parsed_row_str pat v c :
  ip_groups ⊆ groups pat -> c ∈ output_columns (groups pat) ->
  exists t, parsed_row pat v !! c = Some (Str t).
Proof.
  intros Hsub Hc. rewrite parsed_row_lookup by done. cbv zeta.
  rewrite decide_True by done.
  assert (Hcell : forall g, g ∈ groups pat -> exists t,
    cell (extract_row pat (clean_cell v)) g
    = Str t).
  { intros g Hg. unfold cell. rewrite extract_row_lookup, decide_True by done.
    apply filled_capture_str. }
  assert (Hip : forall g, g ∈ ip_groups -> exists t,
    cell (extract_row pat (clean_cell v)) g = Str t).
  { intros g Hg. by apply Hcell, Hsub. }
  repeat case_decide.
  - destruct (fallback_str _ _
                (Hip "src_ip" ltac:(apply ip_groups_spec; auto 6))
                (Hip "src_ip2" ltac:(apply ip_groups_spec; auto 6)))
      as [t ->]. eauto.
  - destruct (fallback_str _ _
                (Hip "dest_ip" ltac:(apply ip_groups_spec; auto 6))
                (Hip "dest_ip2" ltac:(apply ip_groups_spec; auto 6)))
      as [t ->]. eauto.
  - rewrite extract_row_lookup.
    rewrite decide_True by solve_names.
    destruct (filled_capture_str pat c
                (clean_cell v)) as [t ->].
    eauto.
Qed.

Lemma parsed_row_no_match pat v :
  ip_groups ⊆ groups pat -> no_match pat v ->
  parsed_row pat v = gset_to_gmap (Str "") (output_columns (groups pat)).
Proof.
  intros Hsub Hno. apply map_eq. intros c.
  rewrite parsed_row_lookup by done. cbv zeta.
  rewrite lookup_gset_to_gmap.
  assert (Hcell : forall g, g ∈ groups pat ->
    cell (extract_row pat (clean_cell v)) g
    = Str "").
  { intros g Hg. unfold cell. rewrite extract_row_lookup, decide_True by done.
    simpl. by apply filled_capture_no_match. }
  assert (Hip : forall g, g ∈ ip_groups -> g ∈ groups pat)
    by (intros g; apply Hsub).
  destruct (decide (c ∈ output_columns (groups pat))) as [Hc|Hc].
  - rewrite option_guard_True by done. simpl. repeat case_decide.
    + rewrite !Hcell by (apply Hip, ip_groups_spec; auto 6). done.
    + rewrite !Hcell by (apply Hip, ip_groups_spec; auto 6). done.
    + rewrite extract_row_lookup.
      rewrite decide_True by solve_names.
      by rewrite filled_capture_no_match.
  - by rewrite option_guard_False.
Qed.

Lemma parsed_dom pat idx texts :
  length idx = length texts -> ip_groups ⊆ groups pat ->
  dom (columns (parsed pat idx texts)) = output_columns (groups pat).
Proof.
  intros Hlen Hsub. unfold parsed.
  rewrite (merged_dom _ (extracted_ready pat idx texts Hlen Hsub)).
  by rewrite extracted_dom.
Qed.

Lemma parsed_wf pat idx texts :
  length idx = length texts -> ip_groups ⊆ groups pat ->
  wf (parsed pat idx texts).
Proof. intros Hlen Hsub. by apply merged_wf, extracted_ready. Qed.

Lemma parsed_columns_str pat idx texts c s :
  length idx = length texts -> ip_groups ⊆ groups pat ->
  columns (parsed pat idx texts) !! c = Some s ->
  Forall (fun v => exists t, v = Str t) s.
Proof.
  intros Hlen Hsub Hc.
  assert (Hin : c ∈ output_columns (groups pat)).
  { rewrite <- (parsed_dom pat idx texts) by done. apply elem_of_dom. eauto. }
  rewrite (column_of_rows _ c s (parsed_wf pat idx texts Hlen Hsub) Hc).
  apply Forall_forall. intros v Hv.
  apply list_elem_of_fmap in Hv as (lr & -> & Hlr).
  rewrite (parsed_rows_perm pat idx texts Hlen Hsub) in Hlr.
  apply list_elem_of_fmap in Hlr as (lv & -> & _). simpl.
  destruct (parsed_row_str pat lv.2 c Hsub Hin) as [t Ht].
  exists t. unfold cell. by rewrite Ht.
Qed.

(** C3. In the dataset [parse] returns, every cell of every column is a
    string, never the null marker. The null filling is not tied to a field:
    every row of the output is the row made of one input text, and there each
    output column other than the two merged ones holds the capture of its
    group, or the empty string when the capture is missing; the two merged
    ones hold strings as well. *)
Theorem parse_output_strings self pat h r raw_column df texts :
  parse_ready self pat h r raw_column df texts ->
  exists r' h' out,
    parse self r raw_column h = (Return r', h')
    /\ h' !! r' = Some out
    /\ (forall c s, columns out !! c = Some s ->
          Forall (fun v => exists t, v = Str t) s)
    /\ rows out ≡ₚ map (fun lv => (lv.1, parsed_row pat lv.2))
                     (zip (index df) texts)
    /\ (forall v c, c ∈ output_columns (groups pat) ->
          c <> "src_ip" -> c <> "dest_ip" ->
          parsed_row pat v !! c
          = Some (fill_cell "" (capture_cell pat c (clean_cell v))))
    /\ (forall v c, c ∈ output_columns (groups pat) ->
          exists t, parsed_row pat v !! c = Some (Str t)).
Proof.
  intros Hready.
  destruct (parse_run _ _ _ _ _ _ _ Hready) as (r' & h' & Hrun & Hout & _).
  destruct Hready as (Hev & Hsub & Hr & Hwf & Hc & Hs).
  assert (Hlen : length (index df) = length texts).
  { symmetry. by apply Hwf in Hc. }
  exists r', h', (parsed pat (index df) texts).
  split; [done|]. split; [done|]. split; [|split; [|split]].
  - intros c s Hcs. by eapply parsed_columns_str.
  - by apply parsed_rows_perm.
  - intros v c Hin Hsrc Hdest. rewrite parsed_row_lookup by done. cbv zeta.
    rewrite decide_True by done. rewrite !decide_False by done.
    rewrite extract_row_lookup. rewrite decide_True by solve_names. done.
  - intros v c Hin. by apply parsed_row_str.
Qed.

Lemma parse_output_strings_witness :
  exists r' h' out,
    parse notable_parser 0 "raw" [five_frame] = (Return r', h')
    /\ h' !! r' = Some out
    /\ (forall c s, columns out !! c = Some s ->
          Forall (fun v => exists t, v = Str t) s)
    /\ rows out ≡ₚ map (fun lv => (lv.1, parsed_row notable_pattern lv.2))
                     (zip (index five_frame) (map Str five_texts))
    /\ (forall v c, c ∈ output_columns (groups notable_pattern) ->
          c <> "src_ip" -> c <> "dest_ip" ->
          parsed_row notable_pattern v !! c
          = Some (fill_cell "" (capture_cell notable_pattern c (clean_cell v))))
    /\ (forall v c, c ∈ output_columns (groups notable_pattern) ->
          exists t, parsed_row notable_pattern v !! c = Some (Str t)).
Proof.
  apply (parse_output_strings notable_parser notable_pattern [five_frame] 0
           "raw" five_frame (map Str five_texts)).
  unfold parse_ready. by_evaluation.
Defined.

(** C7. A row that does not match the pattern is not an error and is not
    dropped: [parse] returns, the output has as many rows as the input, and
    every input row whose text does not match is in the output, under its
    label, with the empty string in every column. *)
Theorem unmatched_rows_are_empty self pat h r raw_column df texts :
  parse_ready self pat h r raw_column df texts ->
  exists r' h' out,
    parse self r raw_column h = (Return r', h')
    /\ h' !! r' = Some out
    /\ nrows out = nrows df
    /\ dom (columns out) = output_columns (groups pat)
    /\ rows out ≡ₚ map (fun lv => (lv.1, parsed_row pat lv.2))
                     (zip (index df) texts)
    /\ (forall l v, (l, v) ∈ zip (index df) texts -> no_match pat v ->
          (l, gset_to_gmap (Str "") (output_columns (groups pat))) ∈ rows out).
Proof.
  intros Hready.
  destruct (parse_run _ _ _ _ _ _ _ Hready) as (r' & h' & Hrun & Hout & _).
  destruct Hready as (Hev & Hsub & Hr & Hwf & Hc & Hs).
  assert (Hlen : length (index df) = length texts).
  { symmetry. by apply Hwf in Hc. }
  pose proof (parsed_rows_perm pat _ texts Hlen Hsub) as Hperm.
  exists r', h', (parsed pat (index df) texts).
  split; [done|]. split; [done|]. split; [|split; [|split]].
  - pose proof (parsed_index_perm pat _ texts Hlen Hsub) as Hidx.
    by apply Permutation_length in Hidx.
  - by apply parsed_dom.
  - done.
  - intros l v Hin Hno. rewrite Hperm.
    apply list_elem_of_fmap. exists (l, v). split; [|done]. simpl.
    by rewrite parsed_row_no_match.
Qed.

Lemma unmatched_rows_are_empty_witness :
  exists r' h' out,
    parse notable_parser 0 "raw" [five_frame] = (Return r', h')
    /\ h' !! r' = Some out
    /\ nrows out = 5
    /\ (1, gset_to_gmap (Str "") (output_columns (groups notable_pattern)))
       ∈ rows out
    /\ (3, gset_to_gmap (Str "") (output_columns (groups notable_pattern)))
       ∈ rows out.
Proof.
  destruct (unmatched_rows_are_empty notable_parser notable_pattern
              [five_frame] 0 "raw" five_frame (map Str five_texts))
    as (r' & h' & out & Hrun & Hout & Hn & _ & _ & Hrows).
  { unfold parse_ready. by_evaluation. }
  exists r', h', out. split; [done|]. split; [done|]. split; [done|]. split.
  - apply (Hrows 1 (Str "no address here")); [|by vm_compute].
    apply list_elem_of_lookup. exists 1. reflexivity.
  - apply (Hrows 3 (Str "")); [|by vm_compute].
    apply list_elem_of_lookup. exists 3. reflexivity.
Defined.

(** ** The merge when no primary field is empty *)

Lemma merged_all_text df :
  merge_ready df ->
  Forall (fun lr => has_text "src_ip" lr /\ has_text "dest_ip" lr) (rows df) ->
  rows (merged df) = map (on_row merge_rows) (rows df)
  /\ Forall (fun lr => forall c, c ∉ dropped_columns ->
               merge_rows lr.2 !! c = lr.2 !! c) (rows df).
Proof.
  intros Hready Hall.
  assert (Hsrc : Forall (has_text "src_ip") (rows df)).
  { eapply Forall_impl; [exact Hall|]. by intros lr []. }
  assert (Hdest : Forall (has_text "dest_ip")
                    (map (on_row (merge_row "src_ip")) (rows df))).
  { apply Forall_fmap. eapply Forall_impl; [exact Hall|].
    intros [l r] [_ Hd]. unfold has_text, on_row, cell in *. simpl in *.
    by rewrite lookup_merge_row_other by names_differ. }
  split.
  - rewrite (merged_rows df Hready).
    rewrite (regroup_all_text "src_ip") by done.
    rewrite (regroup_all_text "dest_ip") by done.
    by rewrite map_map.
  - rewrite Forall_fmap in Hdest. rewrite Forall_forall in *.
    intros [l r] Hlr c Hc. specialize (Hsrc _ Hlr). specialize (Hdest _ Hlr).
    simpl in *. unfold merge_rows.
    rewrite (merge_row_text "dest_ip" (l, merge_row "src_ip" r))
      by (first [exact Hdest | intros ->; apply Hc; vm_compute; solve_names]).
    rewrite (merge_row_text "src_ip" (l, r))
      by (first [exact Hsrc | intros ->; apply Hc; vm_compute; solve_names]).
    done.
Qed.

(** C5. The frame [_process_ip_fields] returns, which is the frame [parse]
    returns, has the columns of the frame it is given except [src_ip2],
    [dest_ip2], [src_ip_len] and [dest_ip_len]: every other column is kept.
    This holds in every case; when no row has an empty primary field, the
    frame returned is the frame given without these columns: the same row
    labels in the same order and the same cells in every other column. For
    [parse] the columns returned are the groups of the pattern without
    these four. *)
Theorem helper_columns_dropped :
  (forall self h p df,
     h !! p = Some df -> merge_ready df ->
     exists r' h' out,
       _process_ip_fields self p h = (Return r', h')
       /\ h' !! r' = Some out
       /\ dom (columns out) = dom (columns df) ∖ dropped_columns
       /\ (Forall (fun lr => has_text "src_ip" lr /\ has_text "dest_ip" lr)
             (rows df) ->
           index out = index df
           /\ forall c, c ∉ dropped_columns ->
                columns out !! c = columns df !! c))
  /\ (forall self pat h r raw_column df texts,
        parse_ready self pat h r raw_column df texts ->
        exists r' h' out,
          parse self r raw_column h = (Return r', h')
          /\ h' !! r' = Some out
          /\ dom (columns out) = groups pat ∖ dropped_columns
          /\ forall c, c ∈ dropped_columns -> columns out !! c = None).
Proof.
  split.
  - intros self h p df Hp Hready.
    destruct (process_ip_fields_run self p h df Hp Hready)
      as (r' & h' & Hrun & Hout & _).
    exists r', h', (merged df). split; [done|]. split; [done|].
    split; [by apply merged_dom|].
    intros Hall. destruct (merged_all_text df Hready Hall) as [Hrows Hkeep].
    split.
    + rewrite <- !rows_labels, Hrows, map_map. done.
    + intros c Hc. pose proof Hready as (Hwf & _).
      destruct (decide (c ∈ dom (columns df))) as [Hin|Hnin].
      * rewrite (frame_lookup_rows df c Hwf Hin).
        rewrite (frame_lookup_rows (merged df) c (merged_wf df Hready))
          by (rewrite merged_dom by done; solve_names).
        f_equal. rewrite Hrows, map_map.
        apply Forall_fmap_ext_1. eapply Forall_impl; [exact Hkeep|].
        intros lr Hlr. unfold on_row, cell. simpl. by rewrite Hlr.
      * rewrite (proj1 (not_elem_of_dom _ _) Hnin).
        apply not_elem_of_dom. rewrite merged_dom by done. solve_names.
  - intros self pat h r raw_column df texts Hready.
    destruct (parse_run _ _ _ _ _ _ _ Hready) as (r' & h' & Hrun & Hout & _).
    destruct Hready as (Hev & Hsub & Hr & Hwf & Hc & Hs).
    assert (Hlen : length (index df) = length texts).
    { symmetry. by apply Hwf in Hc. }
    exists r', h', (parsed pat (index df) texts).
    split; [done|]. split; [done|].
    pose proof (parsed_dom pat _ texts Hlen Hsub) as Hdom.
    split; [exact Hdom|].
    intros c Hc'. apply not_elem_of_dom. rewrite Hdom.
    unfold output_columns. apply not_elem_of_difference. by right.
Qed.

Lemma helper_columns_dropped_witness :
  (exists r' h' out,
     _process_ip_fields notable_parser 0 [all_text_frame] = (Return r', h')
     /\ h' !! r' = Some out
     /\ dom (columns out) = dom (columns all_text_frame) ∖ dropped_columns
     /\ index out = index all_text_frame
     /\ forall c, c ∉ dropped_columns ->
          columns out !! c = columns all_text_frame !! c)
  /\ (exists r' h' out,
        parse notable_parser 0 "raw" [five_frame] = (Return r', h')
        /\ h' !! r' = Some out
        /\ dom (columns out) = groups notable_pattern ∖ dropped_columns
        /\ forall c, c ∈ dropped_columns -> columns out !! c = None).
Proof.
  destruct helper_columns_dropped as [Hmerge Hparse]. split.
  - destruct (Hmerge notable_parser [all_text_frame] 0 all_text_frame)
      as (r' & h' & out & Hrun & Hout & Hdom & Hsame).
    { reflexivity. }
    { unfold merge_ready. by_evaluation. }
    exists r', h', out. split; [done|]. split; [done|]. split; [done|].
    apply Hsame. repeat constructor; vm_compute; reflexivity.
  - apply (Hparse notable_parser notable_pattern [five_frame] 0 "raw"
             five_frame (map Str five_texts)).
    unfold parse_ready. by_evaluation.
Defined.

(** ** The branches of a round *)

Lemma df_empty_no_rows df : nrows df = 0 -> df_empty df = true.
Proof. intros H. unfold df_empty. apply bool_decide_eq_true. by left. Qed.

Lemma df_empty_some_rows df :
  nrows df <> 0 -> columns df <> ∅ -> df_empty df = false.
Proof.
  intros Hn Hc. unfold df_empty. apply bool_decide_eq_false.
  intros [H|H]; [done|]. by apply map_size_empty_iff in H.
Qed.

Lemma zero_group_columns ip df : columns (zero_group ip df) <> ∅.
Proof.
  intros H. apply (f_equal (fun m => m !! len_name ip)) in H.
  unfold zero_group in H. rewrite df_filter_lookup in H.
  unfold with_len, df_set in H. simpl in H.
  by rewrite lookup_insert_eq, lookup_empty in H.
Qed.

Lemma nonzero_group_columns ip df : columns (nonzero_group ip df) <> ∅.
Proof.
  intros H. apply (f_equal (fun m => m !! len_name ip)) in H.
  unfold nonzero_group in H. rewrite df_filter_lookup in H.
  unfold with_len, df_set in H. simpl in H.
  by rewrite lookup_insert_eq, lookup_empty in H.
Qed.

(** C6. In a round of the merge: the zero-length group is the rows whose
    primary field is the empty string and the other group is the rows whose
    primary field is a non-empty string. If the zero-length group is empty,
    the round returns the other group as it is, without the alternate and the
    length columns: nothing is overwritten or concatenated, the round has
    only made the two groups and the frame it returns. If the other group
    is empty and the zero-length group is not, the round returns the
    zero-length group with its primary field overwritten, without these two
    columns, and nothing is concatenated. *)
Theorem round_edge_cases ip h p df :
  round_ready ip h p df ->
  exists r' h' out,
    process_ip_field ip p h = (Return r', h')
    /\ h' !! r' = Some out
    /\ rows (zero_group ip df)
       = map (on_row (fun r => <[len_name ip := len_cell (cell r ip)]> r))
           (filter (has_empty ip) (rows df))
    /\ rows (nonzero_group ip df)
       = map (on_row (fun r => <[len_name ip := len_cell (cell r ip)]> r))
           (filter (has_text ip) (rows df))
    /\ dom (columns out) = dom (columns df) ∖ {[len_name ip; alt_name ip]}
    /\ (nrows (zero_group ip df) = 0 ->
        out = df_drop [len_name ip; alt_name ip] (nonzero_group ip df)
        /\ h' = <[p := with_len ip df]> h
                 ++ [zero_group ip df; nonzero_group ip df; out])
    /\ (nrows (nonzero_group ip df) = 0 -> nrows (zero_group ip df) <> 0 ->
        out = df_drop [len_name ip; alt_name ip]
                (overwritten ip (zero_group ip df))
        /\ h' = <[p := with_len ip df]> h
                 ++ [overwritten ip (zero_group ip df); nonzero_group ip df;
                     out]).
Proof.
  intros (Hp & Hwf & (s & Hs & Hstr) & [s2 Hs2]).
  pose proof (process_ip_field_store ip p h df s s2 Hp Hwf Hs Hstr Hs2) as Hrun.
  eexists _, _, (pass_frame ip df). split; [exact Hrun|].
  split; [apply round_store_lookup|].
  split; [by eapply zero_group_rows|].
  split; [by eapply nonzero_group_rows|].
  split; [by eapply pass_frame_dom|].
  unfold pass_frame, recombined, round_objects. split.
  - intros Hz. by rewrite (df_empty_no_rows _ Hz).
  - intros Hn Hz.
    rewrite (df_empty_some_rows _ Hz (zero_group_columns ip df)).
    by rewrite (df_empty_no_rows _ Hn).
Qed.

Lemma round_edge_cases_witness :
  (exists r' h' out,
     process_ip_field "src_ip" 0 [all_text_frame] = (Return r', h')
     /\ h' !! r' = Some out
     /\ out = df_drop ["src_ip_len"; "src_ip2"]
                (nonzero_group "src_ip" all_text_frame)
     /\ length h' = 4)
  /\ (exists r' h' out,
        process_ip_field "src_ip" 0 [all_empty_frame] = (Return r', h')
        /\ h' !! r' = Some out
        /\ out = df_drop ["src_ip_len"; "src_ip2"]
                   (overwritten "src_ip"
                      (zero_group "src_ip" all_empty_frame))
        /\ length h' = 4).
Proof.
  split.
  - destruct (round_edge_cases "src_ip" [all_text_frame] 0 all_text_frame)
      as (r' & h' & out & Hrun & Hout & _ & _ & _ & Hzero & _).
    { unfold round_ready. by_evaluation. }
    destruct Hzero as [Hres Hstore]; [vm_compute; reflexivity|].
    exists r', h', out. split; [done|]. split; [done|]. split; [done|].
    by rewrite Hstore.
  - destruct (round_edge_cases "src_ip" [all_empty_frame] 0 all_empty_frame)
      as (r' & h' & out & Hrun & Hout & _ & _ & _ & _ & Hnon).
    { unfold round_ready. by_evaluation. }
    destruct Hnon as [Hres Hstore]; [vm_compute; reflexivity | |].
    { vm_compute. discriminate. }
    exists r', h', out. split; [done|]. split; [done|]. split; [done|].
    by rewrite Hstore.
Defined.

(** C9. [parse] calls [_process_ip_fields] once, on the frame that null
    filling returns; [_process_ip_fields] runs one round for [src_ip] and
    then one round for [dest_ip], each on the frame the step before returned.
    In a round where both groups have rows, the frame returned has the rows
    whose primary field is not empty first, then the rows of the zero-length
    group with their primary field overwritten. So the order of the rows can
    change: some input has its rows returned in another order. *)
Theorem merge_order :
  (forall self dataframe raw_column h,
     parse self dataframe raw_column h
     = (filled ← (raw ← getitem dataframe raw_column;
                  cleaned ← str_replace raw cleaning_pattern "" regex_default;
                  setitem dataframe raw_column cleaned;;
                  extracted ← parse_raw_event self dataframe raw_column
                                EVENT_NAME;
                  fillna extracted "");
        _process_ip_fields self filled) h)
  /\ (forall self p h,
        _process_ip_fields self p h
        = (r1 ← process_ip_field "src_ip" p; process_ip_field "dest_ip" r1) h)
  /\ (forall ip h p df,
        round_ready ip h p df ->
        nrows (zero_group ip df) <> 0 -> nrows (nonzero_group ip df) <> 0 ->
        exists r' h' out,
          process_ip_field ip p h = (Return r', h')
          /\ h' !! r' = Some out
          /\ out = df_drop [len_name ip; alt_name ip]
                     (concat2 (nonzero_group ip df)
                        (overwritten ip (zero_group ip df)))
          /\ h' = <[p := with_len ip df]> h
                   ++ [overwritten ip (zero_group ip df); nonzero_group ip df;
                       concat2 (nonzero_group ip df)
                         (overwritten ip (zero_group ip df));
                       out]
          /\ rows out
             = map (on_row (merge_row ip)) (filter (has_text ip) (rows df))
               ++ map (on_row (merge_row ip)) (filter (has_empty ip) (rows df))
          /\ index out
             = index (nonzero_group ip df) ++ index (zero_group ip df))
  /\ (exists self h dataframe raw_column df r' h' out,
        h !! dataframe = Some df
        /\ parse self dataframe raw_column h = (Return r', h')
        /\ h' !! r' = Some out
        /\ index out <> index df).
Proof.
  split; [|split; [|split]].
  - intros self dataframe raw_column h. unfold parse, mbind, M_bind.
    destruct (getitem dataframe raw_column h) as [[raw|e] h1]; [|done].
    destruct (str_replace raw cleaning_pattern "" regex_default h1)
      as [[cleaned|e] h2]; [|done].
    destruct (setitem dataframe raw_column cleaned h2) as [[u|e] h3]; [|done].
    destruct (parse_raw_event self dataframe raw_column EVENT_NAME h3)
      as [[ext|e] h4]; [|done].
    destruct (fillna ext "" h4) as [[filled|e] h5]; [|done].
    by destruct (_process_ip_fields self filled h5) as [[out|e] h6].
  - intros self p h. unfold _process_ip_fields. simpl. unfold mbind, M_bind.
    destruct (process_ip_field "src_ip" p h) as [[r1|e] h1]; [|done].
    by destruct (process_ip_field "dest_ip" r1 h1) as [[r2|e] h2].
  - intros ip h p df (Hp & Hwf & (s & Hs & Hstr) & [s2 Hs2]) Hz Hn.
    pose proof (process_ip_field_store ip p h df s s2 Hp Hwf Hs Hstr Hs2)
      as Hrun.
    eexists _, _, (pass_frame ip df). split; [exact Hrun|].
    split; [apply round_store_lookup|].
    split; [|split; [|split]].
    + unfold pass_frame, recombined.
      rewrite (df_empty_some_rows _ Hz (zero_group_columns ip df)).
      by rewrite (df_empty_some_rows _ Hn (nonzero_group_columns ip df)).
    + unfold round_objects.
      rewrite (df_empty_some_rows _ Hz (zero_group_columns ip df)).
      by rewrite (df_empty_some_rows _ Hn (nonzero_group_columns ip df)).
    + rewrite (pass_frame_rows ip df s s2) by done. unfold regroup.
      by rewrite map_app.
    + unfold pass_frame, recombined.
      rewrite (df_empty_some_rows _ Hz (zero_group_columns ip df)).
      by rewrite (df_empty_some_rows _ Hn (nonzero_group_columns ip df)).
  - exists notable_parser, [two_frame], 0, "raw", two_frame.
    eexists _, _, _. split; [reflexivity|].
    split; [vm_compute; reflexivity|]. split; [vm_compute; reflexivity|].
    vm_compute. discriminate.
Qed.

Lemma merge_order_witness :
  exists r' h' out,
    process_ip_field "src_ip" 0 [merge_frame] = (Return r', h')
    /\ h' !! r' = Some out
    /\ rows out
       = map (on_row (merge_row "src_ip"))
           (filter (has_text "src_ip") (rows merge_frame))
         ++ map (on_row (merge_row "src_ip"))
              (filter (has_empty "src_ip") (rows merge_frame))
    /\ index out = [1; 0; 2].
Proof.
  destruct merge_order as (_ & _ & Hround & _).
  destruct (Hround "src_ip" [merge_frame] 0 merge_frame)
    as (r' & h' & out & Hrun & Hout & _ & _ & Hrows & Hidx).
  - unfold round_ready. by_evaluation.
  - vm_compute. discriminate.
  - vm_compute. discriminate.
  - exists r', h', out. split; [done|]. split; [done|]. split; [done|].
    rewrite Hidx. vm_compute. reflexivity.
Defined.

(** ** What the cleaning step leaves *)

Lemma clean_strips texts : clean texts = strip_backslashes texts.
Proof.
  unfold clean, strip_backslashes. apply map_ext.
  intros [|s|n|b]; try reflexivity.
  unfold clean_cell, replace_cell. by rewrite replace_all_backslash.
Qed.

Lemma remove_backslashes_none s :
  backslash ∉ String.list_ascii_of_string (remove_backslashes s).
Proof.
  induction s as [|c s IH]; simpl; [apply not_elem_of_nil|].
  destruct (Ascii.eqb_spec c backslash) as [->|Hne]; [done|].
  simpl. rewrite not_elem_of_cons. split; [congruence | done].
Qed.

(** C10. [parse] assigns into the frame of its caller: after [parse] has
    returned, the object the caller's reference points to has its text column
    replaced by the cleaned texts, the same row labels, and every other
    column as before. The frame returned is another object, and no other
    object of the caller is changed. *)
Theorem parse_mutates_input self pat h r raw_column df texts :
  parse_ready self pat h r raw_column df texts ->
  exists r' h' d,
    parse self r raw_column h = (Return r', h')
    /\ h' !! r = Some d
    /\ index d = index df
    /\ columns d !! raw_column = Some (strip_backslashes texts)
    /\ (forall c, c <> raw_column -> columns d !! c = columns df !! c)
    /\ r' <> r
    /\ (forall r0, r0 <> r -> r0 < length h -> h' !! r0 = h !! r0).
Proof.
  intros Hready.
  destruct (parse_run _ _ _ _ _ _ _ Hready)
    as (r' & h' & Hrun & Hout & Hge & Hpre).
  destruct Hready as (Hev & Hsub & Hr & Hwf & Hc & Hs).
  pose proof (lookup_lt_Some _ _ _ Hr) as Hlt.
  exists r', h', (df_set raw_column (clean texts) df).
  split; [done|]. split; [|split; [|split; [|split; [|split]]]].
  - eapply prefix_lookup_Some; [|exact Hpre]. eauto with store.
  - done.
  - unfold df_set. simpl. by rewrite lookup_insert_eq, clean_strips.
  - intros c Hne. unfold df_set. simpl. by rewrite lookup_insert_ne.
  - lia.
  - intros r0 Hne Hlt0.
    destruct (lookup_lt_is_Some_2 h r0 Hlt0) as [d0 Hd0]. rewrite Hd0.
    eapply prefix_lookup_Some; [|exact Hpre].
    by rewrite list_lookup_insert_ne.
Qed.

Lemma parse_mutates_input_witness :
  exists r' h' d,
    parse notable_parser 0 "raw" [scenario_frame] = (Return r', h')
    /\ h' !! 0 = Some d
    /\ columns d !! "raw"
       = Some [Str "src_ip=10.0.0.1 dest_ip= dest_ip2=10.0.0.2"]
    /\ d <> scenario_frame
    /\ r' <> 0.
Proof.
  destruct (parse_mutates_input notable_parser notable_pattern [scenario_frame]
              0 "raw" scenario_frame (map Str [scenario_text]))
    as (r' & h' & d & Hrun & Hd & _ & Hcol & _ & Hne & _).
  { unfold parse_ready. by_evaluation. }
  exists r', h', d. split; [done|]. split; [done|]. split; [exact Hcol|].
  split; [|done].
  intros ->. vm_compute in Hcol. discriminate Hcol.
Defined.

(** C8. Construction fails with a configuration error when the pattern
    resource cannot be located and when it holds no valid pattern, and
    succeeds otherwise; [parse] fails with a schema error when the frame has
    no column of the name it is given. Nothing catches these errors: the call
    ends with the error, returns no parser and no frame, and [parse] has
    changed no object by then. *)
Theorem errors_propagate :
  (forall env,
     read_file env (module_dir env +:+ "/" +:+ REGEX_FILE) = None ->
     exists e, __init__ env = Raise e /\ classify e = ConfigurationError)
  /\ (forall env text,
        read_file env (module_dir env +:+ "/" +:+ REGEX_FILE) = Some text ->
        compile_regex env text = None ->
        exists e, __init__ env = Raise e /\ classify e = ConfigurationError)
  /\ (forall env text pat,
        read_file env (module_dir env +:+ "/" +:+ REGEX_FILE) = Some text ->
        compile_regex env text = Some pat ->
        __init__ env = Return (EventParser_init {[ EVENT_NAME := pat ]}))
  /\ (forall self h dataframe raw_column df,
        h !! dataframe = Some df -> columns df !! raw_column = None ->
        exists e,
          parse self dataframe raw_column h = (Raise e, h)
          /\ classify e = SchemaError).
Proof.
  split; [|split; [|split]].
  - intros env Hnone. eexists. unfold __init__, _load_regex_yaml.
    rewrite Hnone. simpl. split; reflexivity.
  - intros env text Hsome Hbad. eexists. unfold __init__, _load_regex_yaml.
    rewrite Hsome, Hbad. simpl. split; reflexivity.
  - intros env text pat Hsome Hgood. unfold __init__, _load_regex_yaml.
    rewrite Hsome, Hgood. reflexivity.
  - intros self h dataframe raw_column df Hdf Hnone.
    exists (KeyError raw_column). split; [|reflexivity].
    unfold parse. eapply run_bind_raise. by eapply run_getitem_missing.
Qed.

Lemma errors_propagate_witness :
  (exists e, __init__ (sample_environment (fun _ => None)) = Raise e
             /\ classify e = ConfigurationError)
  /\ (exists e, __init__ (sample_environment (fun _ => Some "")) = Raise e
                /\ classify e = ConfigurationError)
  /\ __init__ (sample_environment (fun _ => Some "notable: ..."))
     = Return notable_parser
  /\ (exists e, parse notable_parser 0 "message" [five_frame]
                = (Raise e, [five_frame])
                /\ classify e = SchemaError).
Proof.
  destruct errors_propagate as (Hmissing & Hinvalid & Hvalid & Hcolumn).
  split; [|split; [|split]].
  - apply Hmissing. reflexivity.
  - apply (Hinvalid _ ""); reflexivity.
  - apply (Hvalid _ "notable: ..."); reflexivity.
  - apply (Hcolumn notable_parser [five_frame] 0 "message" five_frame);
      reflexivity.
Defined.

(** C4, as stated, fails: the engine reads the pattern of the cleaning step
    as a regular expression, in which the two characters denote one
    backslash. A text with a single backslash loses it, while collapsing
    doubled backslashes only would leave the text as it is. *)
Lemma single_backslash_is_removed :
  exists r' h' d,
    parse notable_parser 0 "raw" [single_backslash_frame] = (Return r', h')
    /\ h' !! 0 = Some d
    /\ columns d !! "raw" = Some [Str "ab"]
    /\ collapse_doubled (column single_backslash_frame "raw") = [Str "a\b"]
    /\ columns d !! "raw"
       <> Some (collapse_doubled (column single_backslash_frame "raw")).
Proof.
  eexists _, _, _. split; [vm_compute; reflexivity|].
  split; [vm_compute; reflexivity|]. split; [vm_compute; reflexivity|].
  split; [vm_compute; reflexivity|]. vm_compute. discriminate.
Qed.

(** C4, amended. Before the pattern is applied, the cleaning step removes
    every backslash character of the text column, so no doubled backslash is
    left either; the rows of the output are made of the cleaned texts. A row
    whose text is [src_ip=\\10.0.0.1 dest_ip= dest_ip2=10.0.0.2] is cleaned
    to [src_ip=10.0.0.1 dest_ip= dest_ip2=10.0.0.2]; with a pattern that
    captures there [10.0.0.1] for [src_ip], nothing or the empty string for
    [dest_ip] and [10.0.0.2] for [dest_ip2], the output row has
    [src_ip = 10.0.0.1] and [dest_ip = 10.0.0.2]. *)
Theorem cleaning_strips_backslashes self pat h r raw_column df texts :
  parse_ready self pat h r raw_column df texts ->
  exists r' h' d out,
    parse self r raw_column h = (Return r', h')
    /\ h' !! r = Some d
    /\ h' !! r' = Some out
    /\ columns d !! raw_column = Some (strip_backslashes texts)
    /\ Forall (fun v => forall s, v = Str s ->
                 backslash ∉ String.list_ascii_of_string s)
         (strip_backslashes texts)
    /\ rows out ≡ₚ map (fun lv => (lv.1, parsed_row pat lv.2))
                     (zip (index df) texts)
    /\ (forall l caps,
          (l, Str scenario_text) ∈ zip (index df) texts ->
          pmatch pat "src_ip=10.0.0.1 dest_ip= dest_ip2=10.0.0.2" = Some caps ->
          caps !! "src_ip" = Some "10.0.0.1" ->
          caps !! "dest_ip" = None \/ caps !! "dest_ip" = Some "" ->
          caps !! "dest_ip2" = Some "10.0.0.2" ->
          exists row,
            (l, row) ∈ rows out
            /\ row !! "src_ip" = Some (Str "10.0.0.1")
            /\ row !! "dest_ip" = Some (Str "10.0.0.2")).
Proof.
  intros Hready.
  destruct (parse_run _ _ _ _ _ _ _ Hready)
    as (r2 & h2 & Hrun & Hout & _ & Hpre).
  destruct Hready as (Hev & Hsub & Hr & Hwf & Hc & Hs).
  assert (Hlen : length (index df) = length texts).
  { symmetry. by apply Hwf in Hc. }
  pose proof (parsed_rows_perm pat _ texts Hlen Hsub) as Hperm.
  exists r2, h2, (df_set raw_column (clean texts) df),
    (parsed pat (index df) texts).
  split; [done|]. split.
  { eapply prefix_lookup_Some; [|exact Hpre]. eauto with store. }
  split; [done|]. split.
  { unfold df_set. simpl. by rewrite lookup_insert_eq, clean_strips. }
  split; [|split; [done|]].
  - unfold strip_backslashes. apply Forall_fmap, Forall_forall.
    intros v _ s. destruct v; intros Hv; simplify_eq.
    apply remove_backslashes_none.
  - intros l caps Hin Hm Hsrc Hdest Hdest2.
    exists (parsed_row pat (Str scenario_text)). split.
    { rewrite Hperm. apply list_elem_of_fmap.
      by exists (l, Str scenario_text). }
    assert (Hcell : forall g,
      cell (extract_row pat
              (clean_cell (Str scenario_text))) g
      = if decide (g ∈ groups pat)
        then match caps !! g with Some s => Str s | None => Str "" end
        else Null).
    { intros g. unfold cell. rewrite extract_row_lookup.
      case_decide; [|done]. unfold clean_cell, replace_cell, capture_cell.
      change (replace_all (String backslash EmptyString) "" scenario_text)
        with "src_ip=10.0.0.1 dest_ip= dest_ip2=10.0.0.2".
      rewrite Hm. by destruct (caps !! g). }
    assert (Hin' : forall g, g = "src_ip" \/ g = "dest_ip" ->
                     g ∈ output_columns (groups pat)).
    { intros g Hg. unfold output_columns. apply elem_of_difference. split.
      - apply Hsub, ip_groups_spec. tauto.
      - destruct Hg as [-> | ->]; solve_names. }
    split.
    + rewrite parsed_row_lookup by done. cbv zeta.
      rewrite (decide_True (P := "src_ip" ∈ output_columns (groups pat)))
        by (apply Hin'; auto).
      rewrite (decide_True (P := "src_ip" = "src_ip")) by done.
      rewrite !Hcell.
      rewrite !decide_True by (apply Hsub, ip_groups_spec; auto 6).
      rewrite Hsrc. unfold fallback. by rewrite decide_False.
    + rewrite parsed_row_lookup by done. cbv zeta.
      rewrite (decide_True (P := "dest_ip" ∈ output_columns (groups pat)))
        by (apply Hin'; auto).
      rewrite (decide_False (P := "dest_ip" = "src_ip")) by done.
      rewrite (decide_True (P := "dest_ip" = "dest_ip")) by done.
      rewrite !Hcell.
      rewrite !decide_True by (apply Hsub, ip_groups_spec; auto 6).
      rewrite Hdest2. unfold fallback.
      destruct Hdest as [-> | ->]; by rewrite decide_True.
Qed.

Lemma cleaning_strips_backslashes_witness :
  exists r' h' d out row,
    parse notable_parser 0 "raw" [scenario_frame] = (Return r', h')
    /\ h' !! 0 = Some d
    /\ h' !! r' = Some out
    /\ columns d !! "raw"
       = Some [Str "src_ip=10.0.0.1 dest_ip= dest_ip2=10.0.0.2"]
    /\ (0, row) ∈ rows out
    /\ row !! "src_ip" = Some (Str "10.0.0.1")
    /\ row !! "dest_ip" = Some (Str "10.0.0.2").
Proof.
  destruct (cleaning_strips_backslashes notable_parser notable_pattern
              [scenario_frame] 0 "raw" scenario_frame (map Str [scenario_text]))
    as (r' & h' & d & out & Hrun & Hd & Hout & Hcol & _ & _ & Hrow).
  { unfold parse_ready. by_evaluation. }
  destruct (Hrow 0 {[ "src_ip" := "10.0.0.1"; "dest_ip" := "";
                      "dest_ip2" := "10.0.0.2" ]})
    as (row & Hin & Hsrc & Hdest).
  - apply list_elem_of_lookup. exists 0. reflexivity.
  - vm_compute. reflexivity.
  - vm_compute. reflexivity.
  - right. vm_compute. reflexivity.
  - vm_compute. reflexivity.
  - exists r', h', d, out, row. repeat (split; [done|]). done.
Defined.

(* ===================================================================== *)
(** * Further properties of the merge and of [parse]                      *)
(* ===================================================================== *)

(** ** A round that cannot complete *)

Lemma run_drop2_missing r c1 c2 d h :
  h !! r = Some d -> is_Some (columns d !! c1) -> columns d !! c2 = None ->
  drop r [c1; c2] h = (Raise (NameError c2), h).
Proof.
  intros Hr [x1 H1] H2. unfold drop.
  eapply run_bind; [by apply run_deref|]. simpl.
  rewrite H1, H2. rewrite bool_decide_false by done.
  by rewrite bool_decide_true.
Qed.

Lemma round_missing_primary ip p h df :
  h !! p = Some df -> columns df !! ip = None ->
  process_ip_field ip p h = (Raise (KeyError ip), h).
Proof.
  intros Hp Hip. unfold process_ip_field.
  eapply run_bind_raise. by eapply run_getitem_missing.
Qed.

Lemma round_primary_not_text ip p h df s :
  h !! p = Some df -> columns df !! ip = Some s ->
  forallb is_str_or_null s = false ->
  process_ip_field ip p h = (Raise AttributeError, h).
Proof.
  intros Hp Hip Hs. unfold process_ip_field.
  eapply run_bind; [by eapply run_getitem|].
  eapply run_bind_raise. unfold str_len. by rewrite Hs.
Qed.

Lemma round_missing_alternate ip p h df s :
  h !! p = Some df -> wf df ->
  columns df !! ip = Some s -> forallb is_str_or_null s = true ->
  columns df !! alt_name ip = None ->
  process_ip_field ip p h
  = (Raise (if df_empty (zero_group ip df)
            then NameError (alt_name ip) else KeyError (alt_name ip)),
     <[p := with_len ip df]> h ++ [zero_group ip df; nonzero_group ip df]).
Proof.
  intros Hp Hwf Hip Hstr Halt.
  pose proof (column_ip ip df s Hip) as Hcol.
  unfold zero_group, nonzero_group, with_len. rewrite Hcol.
  set (lens := map len_cell s).
  set (df1 := df_set (len_name ip) lens df).
  set (tmp := df_filter (map selects (map (eq_cell 0) lens)) df1).
  set (par := df_filter (map selects (map (ne_cell 0) lens)) df1).
  assert (Hlens : length lens = nrows df).
  { unfold lens. rewrite length_map. by apply Hwf in Hip. }
  assert (Hl1 : columns df1 !! len_name ip = Some lens).
  { unfold df1, df_set. simpl. by rewrite lookup_insert_eq. }
  assert (Ha1 : columns df1 !! alt_name ip = None).
  { unfold df1, df_set. simpl.
    rewrite lookup_insert_ne; [done | apply len_name_alt_name]. }
  assert (Hn1 : nrows df1 = nrows df) by done.
  set (h1 := <[p := df1]> h).
  assert (Hh1 : h1 !! p = Some df1) by (unfold h1; eauto with store).
  assert (Hlm0 : length (map (eq_cell 0) lens) = nrows df1).
  { by rewrite length_map. }
  assert (Hlm1 : length (map (ne_cell 0) lens) = nrows df1).
  { by rewrite length_map. }
  assert (Hlt : p < length h1) by (by eapply lookup_lt_Some).
  assert (Hlp : is_Some (columns par !! len_name ip)).
  { unfold par. rewrite df_filter_lookup, Hl1. simpl. eauto. }
  assert (Hap : columns par !! alt_name ip = None).
  { unfold par. by rewrite df_filter_lookup, Ha1. }
  assert (Hat : columns tmp !! alt_name ip = None).
  { unfold tmp. by rewrite df_filter_lookup, Ha1. }
  unfold process_ip_field.
  destruct (df_empty tmp) eqn:Etmp.
  - etransitivity.
    { round_prefix. fold (len_name ip) (alt_name ip).
      fold lens. fold df1. fold h1. fold tmp par. rewrite Etmp. simpl.
      eapply run_bind; [reflexivity|].
      eapply run_drop2_missing; [eauto with store | done | done]. }
    by rewrite <- app_assoc.
  - etransitivity.
    { round_prefix. fold (len_name ip) (alt_name ip).
      fold lens. fold df1. fold h1. fold tmp par. rewrite Etmp. simpl.
      eapply run_bind_raise. eapply run_bind_raise.
      eapply run_getitem_missing; [eauto with store | exact Hat]. }
    by rewrite <- app_assoc.
Qed.

(** X1. When the frame given to [_process_ip_fields] has no [src_ip] column,
    or a [src_ip] column that does not hold strings, the call raises at the
    first statement of the loop, before anything is assigned: no object is
    changed and none is made. *)
Theorem merge_fails_before_assignment self h p df :
  h !! p = Some df ->
  (columns df !! "src_ip" = None ->
   _process_ip_fields self p h = (Raise (KeyError "src_ip"), h))
  /\ (forall s, columns df !! "src_ip" = Some s ->
        forallb is_str_or_null s = false ->
        _process_ip_fields self p h = (Raise AttributeError, h)).
Proof.
  intros Hp. split.
  - intros Hnone. unfold _process_ip_fields. simpl.
    eapply run_bind_raise. by eapply round_missing_primary.
  - intros s Hs Hbad. unfold _process_ip_fields. simpl.
    eapply run_bind_raise. by eapply round_primary_not_text.
Qed.

Lemma merge_fails_before_assignment_witness :
  _process_ip_fields notable_parser 0 [no_primary_frame]
  = (Raise (KeyError "src_ip"), [no_primary_frame])
  /\ _process_ip_fields notable_parser 0 [number_primary_frame]
     = (Raise AttributeError, [number_primary_frame]).
Proof.
  split.
  - apply (merge_fails_before_assignment notable_parser [no_primary_frame] 0
             no_primary_frame); reflexivity.
  - apply (merge_fails_before_assignment notable_parser
             [number_primary_frame] 0 number_primary_frame eq_refl)
      with (s := [Int 1; Int 2]); reflexivity.
Defined.

(** X2. When the frame given to a round has its primary field but not its
    alternate field, the round raises only after it has worked on the frame:
    the frame given has gained the length column, and the two groups have
    been made. Which statement raises depends on the data: the read of the
    alternate field when some row has an empty primary field, the final
    [drop] when none has. *)
Theorem round_without_alternate ip h p df :
  h !! p = Some df -> wf df -> has_text_column df ip ->
  columns df !! alt_name ip = None ->
  exists e h',
    process_ip_field ip p h = (Raise e, h')
    /\ h' = <[p := with_len ip df]> h
            ++ [zero_group ip df; nonzero_group ip df]
    /\ h' !! p = Some (with_len ip df)
    /\ (filter (has_empty ip) (rows df) <> [] -> e = KeyError (alt_name ip))
    /\ (filter (has_empty ip) (rows df) = [] -> e = NameError (alt_name ip)).
Proof.
  intros Hp Hwf (s & Hs & Hstr) Halt.
  eexists _, _. split; [by eapply round_missing_alternate|].
  split; [done|]. split; [|split].
  - apply lookup_app_l_Some. eauto with store.
  - intros Hsome. destruct (df_empty (zero_group ip df)) eqn:E; [|done].
    apply df_empty_rows in E; [|apply zero_group_columns].
    rewrite (zero_group_rows ip df s) in E by done.
    by apply map_eq_nil in E.
  - intros Hnone. destruct (df_empty (zero_group ip df)) eqn:E; [done|].
    assert (df_empty (zero_group ip df) = true); [|congruence].
    apply df_empty_rows; [apply zero_group_columns|].
    rewrite (zero_group_rows ip df s) by done. by rewrite Hnone.
Qed.

Lemma round_without_alternate_witness :
  (exists h',
     process_ip_field "src_ip" 0 [no_alternate_frame]
     = (Raise (KeyError "src_ip2"), h')
     /\ h' !! 0 = Some (with_len "src_ip" no_alternate_frame))
  /\ (exists h',
        process_ip_field "src_ip" 0 [no_alternate_text_frame]
        = (Raise (NameError "src_ip2"), h')
        /\ h' !! 0 = Some (with_len "src_ip" no_alternate_text_frame)).
Proof.
  split.
  - destruct (round_without_alternate "src_ip" [no_alternate_frame] 0
                no_alternate_frame)
      as (e & h' & Hrun & _ & Hp & Hkey & _); by_evaluation.
    exists h'. split; [|done]. rewrite Hrun, Hkey; [done|].
    vm_compute. discriminate.
  - destruct (round_without_alternate "src_ip" [no_alternate_text_frame] 0
                no_alternate_text_frame)
      as (e & h' & Hrun & _ & Hp & _ & Hname); by_evaluation.
    exists h'. split; [|done]. rewrite Hrun, Hname; [done|].
    vm_compute. reflexivity.
Defined.

(** ** Every outcome of a round *)

Lemma round_outcome ip p h df :
  h !! p = Some df -> wf df ->
  exists o h',
    process_ip_field ip p h = (o, h')
    /\ (h' = h \/ exists extra, h' = <[p := with_len ip df]> h ++ extra)
    /\ forall r', o = Return r' ->
         length h <= r' /\ h' !! r' = Some (pass_frame ip df)
         /\ wf (pass_frame ip df).
Proof.
  intros Hp Hwf.
  destruct (columns df !! ip) as [s|] eqn:Hs.
  2: { eexists _, _. split; [by eapply round_missing_primary|].
       split; [by left | done]. }
  destruct (forallb is_str_or_null s) eqn:Hstr.
  2: { eexists _, _. split; [by eapply round_primary_not_text|].
       split; [by left | done]. }
  destruct (columns df !! alt_name ip) as [s2|] eqn:Hs2.
  2: { eexists _, _. split; [by eapply round_missing_alternate|].
       split; [right; eauto | done]. }
  eexists _, _. split; [by eapply process_ip_field_store|].
  split; [right; eauto|].
  intros r' Hr'. simplify_eq. split; [lia|]. split.
  - apply round_store_lookup.
  - by eapply pass_frame_wf.
Qed.

Lemma store_after_lookup (h : list DataFrame) p d extra i :
  i < length h -> i <> p -> (<[p := d]> h ++ extra) !! i = h !! i.
Proof.
  intros Hi Hne. rewrite lookup_app_l by (by rewrite length_insert).
  by rewrite list_lookup_insert_ne.
Qed.

Lemma store_after_given (h : list DataFrame) p d d' extra :
  h !! p = Some d -> (<[p := d']> h ++ extra) !! p = Some d'.
Proof. intros Hp. apply lookup_app_l_Some. eauto with store. Qed.

(** X3. Whatever the outcome of [_process_ip_fields], a return or an
    exception of any kind, no object that existed before the call is changed
    other than the frame given; that frame is left as it was or with the
    [src_ip_len] column added, and nothing else; a frame returned is a new
    object. *)
Theorem merge_changes_only_its_argument self h p df :
  h !! p = Some df -> wf df ->
  exists o h',
    _process_ip_fields self p h = (o, h')
    /\ (forall i, i < length h -> i <> p -> h' !! i = h !! i)
    /\ (h' !! p = Some df \/ h' !! p = Some (with_len "src_ip" df))
    /\ length h <= length h'
    /\ (forall r', o = Return r' -> length h <= r' /\ r' < length h').
Proof.
  intros Hp Hwf.
  pose proof (lookup_lt_Some _ _ _ Hp) as Hlt.
  destruct (round_outcome "src_ip" p h df Hp Hwf)
    as (o1 & h1 & Hrun1 & Hform1 & Hret1).
  assert (Hkeep1 : forall i, i < length h -> i <> p -> h1 !! i = h !! i).
  { intros i Hi Hne. destruct Hform1 as [-> | [extra ->]]; [done|].
    by apply store_after_lookup. }
  assert (Hp1 : h1 !! p = Some df \/ h1 !! p = Some (with_len "src_ip" df)).
  { destruct Hform1 as [-> | [extra ->]]; [by left|].
    right. by eapply store_after_given. }
  assert (Hlen1 : length h <= length h1).
  { destruct Hform1 as [-> | [extra ->]]; [done|].
    rewrite length_app, length_insert. lia. }
  destruct o1 as [r1|e1].
  2: { exists (Raise e1), h1. split.
       - unfold _process_ip_fields. simpl. by eapply run_bind_raise.
       - by repeat split. }
  destruct (Hret1 r1 eq_refl) as (Hge1 & Hr1 & Hwf1).
  destruct (round_outcome "dest_ip" r1 h1 _ Hr1 Hwf1)
    as (o2 & h2 & Hrun2 & Hform2 & Hret2).
  pose proof (lookup_lt_Some _ _ _ Hr1) as Hlt1.
  assert (Hkeep2 : forall i, i < length h -> h2 !! i = h1 !! i).
  { intros i Hi. destruct Hform2 as [-> | [extra ->]]; [done|].
    apply store_after_lookup; lia. }
  assert (Hlen2 : length h1 <= length h2).
  { destruct Hform2 as [-> | [extra ->]]; [done|].
    rewrite length_app, length_insert. lia. }
  exists o2, h2. split; [|split; [|split; [|split]]].
  - unfold _process_ip_fields. simpl.
    eapply run_bind; [exact Hrun1|].
    destruct o2 as [r2|e2].
    + eapply run_bind; [exact Hrun2|]. done.
    + by eapply run_bind_raise.
  - intros i Hi Hne. rewrite Hkeep2 by done. by apply Hkeep1.
  - rewrite Hkeep2 by done. done.
  - lia.
  - intros r2 ->. destruct (Hret2 r2 eq_refl) as (Hge2 & Hr2 & _).
    apply lookup_lt_Some in Hr2. lia.
Qed.

Lemma merge_changes_only_its_argument_witness :
  exists o h',
    _process_ip_fields notable_parser 1 [five_frame; no_alternate_frame]
    = (o, h')
    /\ h' !! 0 = Some five_frame
    /\ (h' !! 1 = Some no_alternate_frame
        \/ h' !! 1 = Some (with_len "src_ip" no_alternate_frame)).
Proof.
  destruct (merge_changes_only_its_argument notable_parser
              [five_frame; no_alternate_frame] 1 no_alternate_frame)
    as (o & h' & Hrun & Hkeep & Hp & _); by_evaluation.
  exists o, h'. split; [done|]. split; [|done].
  rewrite Hkeep; [done | simpl; lia | lia].
Defined.

(** X4. [_process_ip_fields] cannot be applied to its own result: the
    alternate fields are gone from the frame it returns, so a second call on
    that frame raises, for the missing [src_ip2] or, when the merged [src_ip]
    no longer holds strings only, at the read of its lengths. *)
Theorem merge_cannot_run_twice self h p df :
  h !! p = Some df -> merge_ready df ->
  exists r1 h1 e h2,
    _process_ip_fields self p h = (Return r1, h1)
    /\ _process_ip_fields self r1 h1 = (Raise e, h2)
    /\ (e = KeyError "src_ip2" \/ e = NameError "src_ip2"
        \/ e = AttributeError).
Proof.
  intros Hp Hready.
  destruct (process_ip_fields_run self p h df Hp Hready)
    as (r1 & h1 & Hrun1 & Hr1 & _).
  pose proof (merged_wf df Hready) as Hwf.
  pose proof (merged_dom df Hready) as Hdom.
  assert (Hnone : columns (merged df) !! alt_name "src_ip" = None).
  { apply not_elem_of_dom. rewrite Hdom. apply not_elem_of_difference.
    right. change (alt_name "src_ip") with "src_ip2". solve_names. }
  assert (Hsome : is_Some (columns (merged df) !! "src_ip")).
  { apply elem_of_dom. rewrite Hdom. apply elem_of_difference. split.
    - destruct Hready as (_ & (s & Hs & _) & _). apply elem_of_dom. eauto.
    - solve_names. }
  destruct Hsome as [s Hs].
  exists r1, h1. destruct (forallb is_str_or_null s) eqn:Hstr.
  - eexists _, _. split; [done|]. split.
    + unfold _process_ip_fields. simpl. eapply run_bind_raise.
      by eapply round_missing_alternate.
    + destruct (df_empty (zero_group "src_ip" (merged df))); auto.
  - eexists _, _. split; [done|]. split.
    + unfold _process_ip_fields. simpl. eapply run_bind_raise.
      by eapply round_primary_not_text.
    + auto.
Qed.

Lemma merge_cannot_run_twice_witness :
  exists r1 h1 e h2,
    _process_ip_fields notable_parser 0 [merge_frame] = (Return r1, h1)
    /\ _process_ip_fields notable_parser r1 h1 = (Raise e, h2)
    /\ (e = KeyError "src_ip2" \/ e = NameError "src_ip2"
        \/ e = AttributeError).
Proof.
  apply (merge_cannot_run_twice notable_parser [merge_frame] 0 merge_frame).
  - reflexivity.
  - unfold merge_ready. by_evaluation.
Defined.

(** ** The order of the rows after both rounds *)

Lemma regroup_map_first_round (l : list (nat * gmap string value)) :
  regroup "dest_ip" (map (on_row (merge_row "src_ip")) l)
  = map (on_row (merge_row "src_ip")) (regroup "dest_ip" l).
Proof.
  unfold regroup. rewrite map_app, !filter_map_comm. f_equal; f_equal.
  - apply list_filter_iff. intros [lbl r]. unfold has_text, on_row, cell.
    simpl. by rewrite lookup_merge_row_other by names_differ.
  - apply list_filter_iff. intros [lbl r]. unfold has_empty, on_row, cell.
    simpl. by rewrite lookup_merge_row_other by names_differ.
Qed.

(** X5. The order in which [_process_ip_fields] returns the rows is fixed by
    the data: the rows are regrouped by [src_ip] (non-empty first, then
    empty) and the result is regrouped by [dest_ip] in the same way, each
    regrouping keeping the order inside a group; every row is returned
    merged, under its own label. *)
Theorem merge_row_order self h p df :
  h !! p = Some df -> merge_ready df ->
  exists r' h' out,
    _process_ip_fields self p h = (Return r', h')
    /\ h' !! r' = Some out
    /\ rows out
       = map (on_row merge_rows)
           (regroup "dest_ip" (regroup "src_ip" (rows df)))
    /\ index out
       = map fst (regroup "dest_ip" (regroup "src_ip" (rows df))).
Proof.
  intros Hp Hready.
  destruct (process_ip_fields_run self p h df Hp Hready)
    as (r' & h' & Hrun & Hout & _).
  exists r', h', (merged df). split; [done|]. split; [done|].
  assert (Hrows : rows (merged df)
                  = map (on_row merge_rows)
                      (regroup "dest_ip" (regroup "src_ip" (rows df)))).
  { rewrite (merged_rows df Hready), regroup_map_first_round.
    by rewrite map_map. }
  split; [exact Hrows|].
  rewrite <- rows_labels, Hrows, map_map. done.
Qed.

Lemma merge_row_order_witness :
  exists r' h' out,
    _process_ip_fields notable_parser 0 [merge_frame] = (Return r', h')
    /\ h' !! r' = Some out
    /\ rows out
       = map (on_row merge_rows)
           (regroup "dest_ip" (regroup "src_ip" (rows merge_frame)))
    /\ index out = [0; 1; 2].
Proof.
  destruct (merge_row_order notable_parser [merge_frame] 0 merge_frame)
    as (r' & h' & out & Hrun & Hout & Hrows & Hidx).
  - reflexivity.
  - unfold merge_ready. by_evaluation.
  - exists r', h', out. split; [done|]. split; [done|]. split; [done|].
    rewrite Hidx. vm_compute. reflexivity.
Defined.

(** X6. [_process_ip_fields] changes no cell of a column other than [src_ip]
    and [dest_ip]: for every column that is kept, the frame returned has,
    row by row under the same labels, the cells the frame given had. *)
Theorem merge_keeps_other_cells self h p df :
  h !! p = Some df -> merge_ready df ->
  exists r' h' out,
    _process_ip_fields self p h = (Return r', h')
    /\ h' !! r' = Some out
    /\ forall c, c <> "src_ip" -> c <> "dest_ip" -> c ∉ dropped_columns ->
         map (fun lr => (lr.1, lr.2 !! c)) (rows out)
         = map (fun lr => (lr.1, lr.2 !! c))
             (regroup "dest_ip" (regroup "src_ip" (rows df)))
         /\ map (fun lr => (lr.1, lr.2 !! c)) (rows out)
            ≡ₚ map (fun lr => (lr.1, lr.2 !! c)) (rows df).
Proof.
  intros Hp Hready.
  destruct (process_ip_fields_run self p h df Hp Hready)
    as (r' & h' & Hrun & Hout & _).
  exists r', h', (merged df). split; [done|]. split; [done|].
  intros c Hsrc Hdest Hkeep.
  assert (Hother : forall r : gmap string value, merge_rows r !! c = r !! c).
  { intros r. apply merge_rows_other. solve_names. }
  split.
  - rewrite (merged_rows df Hready), regroup_map_first_round.
    rewrite !map_map. apply map_ext. intros [lbl r]. simpl.
    by rewrite <- (Hother r).
  - rewrite (merged_rows_perm df Hready), map_map.
    apply Permutation_refl'. apply map_ext. intros [lbl r]. simpl.
    by rewrite Hother.
Qed.

Lemma merge_keeps_other_cells_witness :
  exists r' h' out,
    _process_ip_fields notable_parser 0 [merge_frame] = (Return r', h')
    /\ h' !! r' = Some out
    /\ map (fun lr => (lr.1, lr.2 !! "user")) (rows out)
       ≡ₚ [(0, Some (Str "ann")); (1, Some (Str "")); (2, Some (Str "bob"))].
Proof.
  destruct (merge_keeps_other_cells notable_parser [merge_frame] 0 merge_frame)
    as (r' & h' & out & Hrun & Hout & Hcells).
  - reflexivity.
  - unfold merge_ready. by_evaluation.
  - exists r', h', out. split; [done|]. split; [done|].
    destruct (Hcells "user") as [_ Hperm].
    + discriminate.
    + discriminate.
    + unfold dropped_columns.
      rewrite !elem_of_union, !elem_of_singleton.
      intros [[[H|H]|H]|H]; discriminate H.
    + exact Hperm.
Defined.

(** ** [parse] that cannot complete, and [parse] called again *)

Lemma remove_backslashes_idem s :
  remove_backslashes (remove_backslashes s) = remove_backslashes s.
Proof.
  induction s as [|c s IH]; simpl; [done|].
  destruct (Ascii.eqb c backslash) eqn:E; [done|].
  simpl. by rewrite E, IH.
Qed.

Lemma remove_backslashes_id s :
  backslash ∉ String.list_ascii_of_string s -> remove_backslashes s = s.
Proof.
  induction s as [|c s IH]; simpl; [done|].
  rewrite not_elem_of_cons. intros [Hne Hrest].
  rewrite (proj2 (Ascii.eqb_neq c backslash)) by congruence.
  by rewrite IH.
Qed.

Lemma clean_idem texts : clean (clean texts) = clean texts.
Proof.
  rewrite !clean_strips. unfold strip_backslashes. rewrite map_map.
  apply map_ext. intros [|s|n|b]; try done.
  by rewrite remove_backslashes_idem.
Qed.

Lemma df_set_same c s df : columns df !! c = Some s -> df_set c s df = df.
Proof.
  intros Hc. destruct df as [idx cols]. unfold df_set. simpl in *.
  by rewrite insert_id.
Qed.

Lemma df_set_twice c s t df : df_set c s (df_set c t df) = df_set c s df.
Proof. unfold df_set. simpl. by rewrite insert_insert_eq. Qed.

(** X7. When the text column holds values that are not strings, [parse]
    raises at the cleaning step, before it assigns: no object is changed. *)
Theorem parse_text_not_strings self h r raw_column df texts :
  h !! r = Some df -> columns df !! raw_column = Some texts ->
  forallb is_str_or_null texts = false ->
  parse self r raw_column h = (Raise AttributeError, h).
Proof.
  intros Hr Hc Hbad. unfold parse.
  eapply run_bind; [by eapply run_getitem|].
  eapply run_bind_raise. unfold str_replace. by rewrite Hbad.
Qed.

Lemma parse_text_not_strings_witness :
  parse notable_parser 0 "raw" [number_text_frame]
  = (Raise AttributeError, [number_text_frame]).
Proof.
  apply (parse_text_not_strings notable_parser [number_text_frame] 0 "raw"
           number_text_frame [Int 1; Int 2]); reflexivity.
Defined.

(** X8. An exception raised after the cleaning step does not undo it. When
    the pattern has no [src_ip] group, [parse] raises at the first statement
    of the merge, and the caller's frame is left with its text column
    cleaned. *)
Theorem parse_failure_keeps_cleaning self pat h r raw_column df texts :
  event_regex self !! EVENT_NAME = Some pat ->
  "src_ip" ∉ groups pat ->
  h !! r = Some df -> wf df ->
  columns df !! raw_column = Some texts ->
  forallb is_str_or_null texts = true ->
  exists h',
    parse self r raw_column h = (Raise (KeyError "src_ip"), h')
    /\ h' !! r = Some (df_set raw_column (strip_backslashes texts) df)
    /\ forall i, i < length h -> i <> r -> h' !! i = h !! i.
Proof.
  intros Hev Hno Hr Hwf Hc Hs.
  set (dfc := df_set raw_column (clean texts) df).
  set (h1 := <[r := dfc]> h).
  assert (Hr1 : h1 !! r = Some dfc) by (unfold h1; eauto with store).
  set (ext := extract_frame pat (index df) (clean texts)).
  set (pre := extracted pat (index df) texts).
  exists ((h1 ++ [ext]) ++ [pre]). split; [|split].
  - unfold parse.
    eapply run_bind; [by eapply run_getitem|].
    eapply run_bind; [by apply run_str_replace_clean|].
    eapply run_bind.
    { eapply run_setitem; [done|]. rewrite clean_length. by apply Hwf in Hc. }
    fold dfc h1.
    eapply run_bind.
    { eapply run_parse_raw_event; [done | done | |].
      - unfold dfc, df_set. simpl. by rewrite lookup_insert_eq.
      - by apply clean_is_text. }
    eapply run_bind; [eapply run_fillna; eauto with store|].
    eapply run_bind_raise.
    unfold _process_ip_fields. simpl. eapply run_bind_raise.
    eapply round_missing_primary.
    + apply store_lookup_new.
    + apply not_elem_of_dom.
      change (df_fillna "" (extract_frame pat (index dfc) (clean texts)))
        with (extracted pat (index df) texts).
      unfold pre. by rewrite extracted_dom.
  - rewrite <- clean_strips. fold dfc.
    rewrite <- app_assoc. apply lookup_app_l_Some. exact Hr1.
  - intros i Hi Hne. rewrite <- app_assoc. unfold h1.
    by apply store_after_lookup.
Qed.

Lemma parse_failure_keeps_cleaning_witness :
  exists h',
    parse user_parser 0 "raw" [scenario_frame] = (Raise (KeyError "src_ip"), h')
    /\ h' !! 0
       = Some (frame_of ["src_ip=10.0.0.1 dest_ip= dest_ip2=10.0.0.2"]).
Proof.
  destruct (parse_failure_keeps_cleaning user_parser user_pattern
              [scenario_frame] 0 "raw" scenario_frame (map Str [scenario_text]))
    as (h' & Hrun & Hr & _).
  - reflexivity.
  - change ("src_ip" ∉ ({[ "user" ]} : gset string)).
    rewrite elem_of_singleton. discriminate.
  - reflexivity.
  - by_evaluation.
  - reflexivity.
  - reflexivity.
  - exists h'. split; [done|]. rewrite Hr. vm_compute. reflexivity.
Defined.

(** X9. Cleaning a cleaned column changes nothing, so [parse] can be called
    again on the frame it has already changed: the second call returns, in a
    new object, a frame equal to the one the first call returned, leaves the
    caller's frame as the first call left it, and does not touch the frame
    the first call returned. *)
Theorem parse_twice self pat h r raw_column df texts :
  parse_ready self pat h r raw_column df texts ->
  exists r1 h1 r2 h2 out,
    parse self r raw_column h = (Return r1, h1)
    /\ parse self r raw_column h1 = (Return r2, h2)
    /\ h1 !! r1 = Some out
    /\ h2 !! r2 = Some out
    /\ r2 <> r1
    /\ h2 !! r1 = Some out
    /\ h2 !! r = h1 !! r.
Proof.
  intros Hready.
  destruct (parse_run _ _ _ _ _ _ _ Hready)
    as (r1 & h1 & Hrun1 & Hout1 & Hge1 & Hpre1).
  destruct Hready as (Hev & Hsub & Hr & Hwf & Hc & Hs).
  pose proof (lookup_lt_Some _ _ _ Hr) as Hlt.
  set (dfc := df_set raw_column (clean texts) df) in *.
  assert (Hr1 : h1 !! r = Some dfc).
  { eapply prefix_lookup_Some; [|exact Hpre1]. eauto with store. }
  assert (Hready2 : parse_ready self pat h1 r raw_column dfc (clean texts)).
  { split; [done|]. split; [done|]. split; [done|]. split; [|split].
    - apply wf_df_set; [done|]. rewrite clean_length. by apply Hwf in Hc.
    - unfold dfc, df_set. simpl. by rewrite lookup_insert_eq.
    - by apply clean_is_text. }
  destruct (parse_run _ _ _ _ _ _ _ Hready2)
    as (r2 & h2 & Hrun2 & Hout2 & Hge2 & Hpre2).
  assert (Hsame : parsed pat (index dfc) (clean texts)
                  = parsed pat (index df) texts).
  { unfold parsed, extracted. by rewrite clean_idem. }
  assert (Hkeep : <[r := df_set raw_column (clean (clean texts)) dfc]> h1 = h1).
  { rewrite clean_idem. unfold dfc at 1. rewrite df_set_twice.
    by apply list_insert_id. }
  rewrite Hkeep in Hpre2.
  pose proof (lookup_lt_Some _ _ _ Hout1) as Hlt1.
  exists r1, h1, r2, h2, (parsed pat (index df) texts).
  split; [exact Hrun1|]. split; [exact Hrun2|]. split; [exact Hout1|].
  split; [rewrite <- Hsame; exact Hout2|]. split; [lia|]. split.
  - eapply prefix_lookup_Some; [exact Hout1 | exact Hpre2].
  - rewrite Hr1. eapply prefix_lookup_Some; [exact Hr1 | exact Hpre2].
Qed.

Lemma parse_twice_witness :
  exists r1 h1 r2 h2 out,
    parse notable_parser 0 "raw" [scenario_frame] = (Return r1, h1)
    /\ parse notable_parser 0 "raw" h1 = (Return r2, h2)
    /\ h1 !! r1 = Some out
    /\ h2 !! r2 = Some out
    /\ r2 <> r1
    /\ h2 !! r1 = Some out
    /\ h2 !! 0 = h1 !! 0.
Proof.
  apply (parse_twice notable_parser notable_pattern [scenario_frame] 0 "raw"
           scenario_frame (map Str [scenario_text])).
  unfold parse_ready. by_evaluation.
Defined.

(** X10. When no text of the text column contains a backslash, [parse]
    leaves the caller's frame equal to what it was: the cleaning step assigns
    the column it read. *)
Theorem parse_without_backslash self pat h r raw_column df texts :
  parse_ready self pat h r raw_column df texts ->
  Forall (fun v => forall s, v = Str s ->
            backslash ∉ String.list_ascii_of_string s) texts ->
  exists r' h',
    parse self r raw_column h = (Return r', h')
    /\ h' !! r = Some df
    /\ forall i, i < length h -> h' !! i = h !! i.
Proof.
  intros Hready Hclean.
  destruct (parse_run _ _ _ _ _ _ _ Hready)
    as (r' & h' & Hrun & Hout & Hge & Hpre).
  destruct Hready as (Hev & Hsub & Hr & Hwf & Hc & Hs).
  assert (Hsame : clean texts = texts).
  { rewrite clean_strips. unfold strip_backslashes.
    rewrite <- (map_id texts) at 2. apply Forall_fmap_ext_1.
    eapply Forall_impl; [exact Hclean|]. intros [|s|n|b] Hv; try done.
    simpl. by rewrite remove_backslashes_id by (by apply Hv). }
  rewrite Hsame, (df_set_same _ _ _ Hc), (list_insert_id _ _ _ Hr) in Hpre.
  exists r', h'. split; [done|]. split.
  - by eapply prefix_lookup_Some.
  - intros i Hi. destruct (lookup_lt_is_Some_2 h i Hi) as [d Hd].
    rewrite Hd. by eapply prefix_lookup_Some.
Qed.

Lemma parse_without_backslash_witness :
  exists r' h',
    parse notable_parser 0 "raw" [five_frame] = (Return r', h')
    /\ h' !! 0 = Some five_frame.
Proof.
  destruct (parse_without_backslash notable_parser notable_pattern
              [five_frame] 0 "raw" five_frame (map Str five_texts))
    as (r' & h' & Hrun & Hr & _).
  - unfold parse_ready. by_evaluation.
  - repeat (apply Forall_cons; split;
              [intros s Hs; simplify_eq;
               apply (bool_decide_unpack _); vm_compute; exact I|]).
    constructor.
  - exists r', h'. split; [exact Hrun | exact Hr].
Defined.
